(** * Bin-Packing-Problem: the EMS placement engine of [Problem.py]

    A shallow embedding of [Problem.py] (classes [Problem] and [Placement],
    with the nested class [Placement.Bin]) and the properties of its
    decoder, its bin bookkeeping and its fitness; and of the splitting
    loop of [Data/Generator.py], which makes the problem instances.

    Modelling conventions.
    - Python [int] is [Z]; a 3-tuple of ints is a triple of [Z]; a Python
      list is a [list], read with stdpp's lookup [l !! i] and written with
      [<[i:=x]> l], the [IndexError] of an index out of range written out.
    - Python [float] (the genes and the fitness) is idealised as an exact
      rational [Q], extended with the two infinities and NaN that
      [np.inf] and a division by zero bring in.
    - An exception is a value [Raise e]; a method that mutates its object
      is a function from the store to a result and the store it leaves,
      so that what a failing call has already written stays visible.
    - [Placement.__init__] stores [problem.items] itself, not a copy: the
      item list lives in the [Problem] record of the store and every engine
      bound to that record reads and writes it there. *)

From Stdlib Require Import ZArith QArith Qround Lia Lqa.
From stdpp Require Import base option list sorting.

Local Open Scope Z_scope.

(** ** Python values *)

(** A 3-tuple of ints: an item's extent, a bin size, a corner. *)
Definition Extent : Type := Z * Z * Z.

(** An EMS is the two-element list [[min_corner, max_corner]]. *)
Definition EMS : Type := Extent * Extent.

(** An entry of the item list: a 3-tuple, or the [None] that [get_size]
    returns for an orientation outside 1..6. *)
Definition PyItem : Type := option Extent.

Inductive exn : Type :=
| ValueError
| IndexError
| TypeError
| AttributeError.

Inductive Result (A : Type) : Type :=
| OK (a : A)
| Raise (e : exn).
Arguments OK {A} a.
Arguments Raise {A} e.

#[global] Instance exn_eq_dec : EqDecision exn.
Proof. solve_decision. Defined.

(** [t[i]] for [i] in [range(3)]. *)
Definition axis (i : nat) (t : Extent) : Z :=
  let '(x, y, z) := t in
  match i with
  | O => x
  | S O => y
  | _ => z
  end.

(** Python's [a >= b] and [a <= b] on two 3-tuples of ints: the order is
    lexicographic, decided at the first position where the tuples differ. *)
Definition tuple_ge (a b : Extent) : bool :=
  let '(a0, a1, a2) := a in
  let '(b0, b1, b2) := b in
  if negb (a0 =? b0) then a0 >=? b0
  else if negb (a1 =? b1) then a1 >=? b1
  else a2 >=? b2.

Definition tuple_le (a b : Extent) : bool :=
  let '(a0, a1, a2) := a in
  let '(b0, b1, b2) := b in
  if negb (a0 =? b0) then a0 <=? b0
  else if negb (a1 =? b1) then a1 <=? b1
  else a2 <=? b2.

(** ** Floats *)

Inductive PyFloat : Type :=
| Fin (q : Q)
| PInf
| NInf
| NaN.

(** [np.int64 / int]: true division; numpy answers a zero divisor with an
    infinity or NaN (and a warning), not with an exception. [np.min]
    returns an [np.int64] as long as the loads fit in 64 bits, which is
    the case modelled here. *)
Definition int_truediv (a b : Z) : PyFloat :=
  if b =? 0 then
    if a >? 0 then PInf else if a <? 0 then NInf else NaN
  else Fin (Qred (inject_Z a / inject_Z b)).

(** [int + float]. *)
Definition int_add_float (n : Z) (f : PyFloat) : PyFloat :=
  match f with
  | Fin q => Fin (Qred (inject_Z n + q))
  | other => other
  end.

(** [a < b] on floats. *)
Definition float_lt (a b : PyFloat) : bool :=
  match a, b with
  | NaN, _ | _, NaN => false
  | Fin p, Fin q => negb (Qle_bool q p)
  | Fin _, PInf => true
  | NInf, Fin _ => true
  | NInf, PInf => true
  | _, _ => false
  end.

(** [np.min] of a list of ints; [ValueError] on an empty list. *)
Definition np_min (l : list Z) : Result Z :=
  match l with
  | [] => Raise ValueError
  | x :: l' => OK (fold_left Z.min l' x)
  end.

(** [np.argsort] of a list of floats: the indices that sort the keys in
    ascending order. Equal keys keep their original order here; on keys
    that are pairwise distinct every sorting order gives this result.
    The default kind of [np.argsort] does not fix the order of equal
    keys: what has to hold on tied priorities is stated on
    [Placement.decode_with], for every result [is_argsort] admits.
    Built by inserting the indices from the last to the first; index [i]
    goes in front of the first index whose key is not smaller. *)
Definition key (keys : list Q) (i : nat) : Q := default 0%Q (keys !! i).

Fixpoint insert_index (keys : list Q) (i : nat) (sorted : list nat) : list nat :=
  match sorted with
  | [] => [i]
  | j :: rest =>
      if Qle_bool (key keys i) (key keys j) then i :: j :: rest
      else j :: insert_index keys i rest
  end.

Definition argsort (keys : list Q) : list nat :=
  foldr (insert_index keys) [] (seq 0 (length keys)).

(** ** class Placement.Bin *)

Module Bin.

Record t : Type := mk {
  size : Extent;
  EMSs : list EMS;
  load : Z
}.

(** [Bin.__init__(size)]. *)
Definition init (size : Extent) : t :=
  {| size := size; EMSs := [((0, 0, 0), size)]; load := 0 |}.

(** [Bin.fit(item, EMS)]: the loop over the three axes, leaving with
    [False] at the first axis that overflows. *)
Definition fit (item : Extent) (E : EMS) : bool :=
  if axis 0 (fst E) + axis 0 item >? axis 0 (snd E) then false
  else if axis 1 (fst E) + axis 1 item >? axis 1 (snd E) then false
  else if axis 2 (fst E) + axis 2 item >? axis 2 (snd E) then false
  else true.

(** The squared distance computed inside [choose]. *)
Definition distance (size item : Extent) (E : EMS) : Z :=
  let x := axis 0 (fst E) + axis 0 item in
  let y := axis 1 (fst E) + axis 1 item in
  let z := axis 2 (fst E) + axis 2 item in
  (axis 0 size - x) ^ 2 + (axis 1 size - y) ^ 2 + (axis 2 size - z) ^ 2.

(** The loop of [choose], with its two loop variables. *)
Fixpoint choose_loop (size item : Extent) (l : list EMS)
    (max_distance : Z) (selected_EMS : option EMS) : option EMS :=
  match l with
  | [] => selected_EMS
  | E :: l' =>
      if fit item E then
        let d := distance size item E in
        if d >? max_distance then choose_loop size item l' d (Some E)
        else choose_loop size item l' max_distance selected_EMS
      else choose_loop size item l' max_distance selected_EMS
  end.

(** [Bin.choose(item)] on a proper item. *)
Definition choose (b : t) (item : Extent) : option EMS :=
  choose_loop (size b) item (EMSs b) (-1) None.

(** [Bin.choose(item)] on any entry of the item list: on [None] the first
    [fit] fails subscripting it; with no EMS to test, nothing fails. *)
Definition choose_py (b : t) (item : PyItem) : Result (option EMS) :=
  match item with
  | Some it => OK (choose b it)
  | None =>
      match EMSs b with
      | [] => OK None
      | _ :: _ => Raise TypeError
      end
  end.

(** [Bin.inscribed(EMS1, EMS2)]: the corners are tuples, so each [>=] and
    [<=] is one lexicographic comparison and [np.all] of its single
    boolean is that boolean. *)
Definition inscribed (EMS1 EMS2 : EMS) : bool :=
  tuple_ge (fst EMS1) (fst EMS2) && tuple_le (snd EMS1) (snd EMS2).

(** [list.remove(x)]: drops the first element equal to [x]; [ValueError]
    when there is none. *)
Fixpoint list_remove (x : EMS) (l : list EMS) : Result (list EMS) :=
  match l with
  | [] => Raise ValueError
  | y :: l' =>
      if decide (y = x) then OK l'
      else match list_remove x l' with
           | OK r => OK (y :: r)
           | Raise e => Raise e
           end
  end.

(** The three candidates of [update], in the order of [new_EMSs]. *)
Definition new_EMSs (item : Extent) (selected_EMS : EMS) : list EMS :=
  let '(x1, y1, z1) := fst selected_EMS in
  let '(x2, y2, z2) := (x1 + axis 0 item, y1 + axis 1 item, z1 + axis 2 item) in
  let '(x3, y3, z3) := snd selected_EMS in
  [ ((x2, y1, z1), (x3, y3, z3));
    ((x1, y2, z1), (x3, y3, z3));
    ((x1, y1, z2), (x3, y3, z3)) ].

(** The first inner loop of [update]: some axis has [EMS[0][i] >= EMS[1][i]]. *)
Definition degenerate (E : EMS) : bool :=
  (axis 0 (fst E) >=? axis 0 (snd E))
  || (axis 1 (fst E) >=? axis 1 (snd E))
  || (axis 2 (fst E) >=? axis 2 (snd E)).

(** [isValid] after both inner loops, against the current [self.EMSs]. *)
Definition isValid (E : EMS) (current : list EMS) : bool :=
  negb (degenerate E) && negb (existsb (inscribed E) current).

(** The loop over [new_EMSs]: a candidate that is kept is appended at
    once, so the later candidates are tested against it too. *)
Fixpoint append_valid (candidates current : list EMS) : list EMS :=
  match candidates with
  | [] => current
  | E :: rest =>
      if isValid E current then append_valid rest (current ++ [E])
      else append_valid rest current
  end.

(** [Bin.update(item, selected_EMS)] on a proper item. The only statement
    that can raise is [remove], before anything is written. *)
Definition update (b : t) (item : Extent) (selected_EMS : EMS) : Result t :=
  match list_remove selected_EMS (EMSs b) with
  | Raise e => Raise e
  | OK remaining =>
      OK {| size := size b;
            EMSs := append_valid (new_EMSs item selected_EMS) remaining;
            load := load b + axis 0 item * axis 1 item * axis 2 item |}
  end.

(** [Bin.update] on any entry of the item list: [item[0]] on [None] is a
    [TypeError], raised in the second statement. *)
Definition update_py (b : t) (item : PyItem) (selected_EMS : EMS) : Result t :=
  match item with
  | Some it => update b it selected_EMS
  | None => Raise TypeError
  end.

End Bin.

(** ** class Problem *)

Module Problem.

Record t : Type := mk {
  bin_size : Extent;
  n_bins : Z;
  n_items : Z;
  total_volume : Z;
  items : list PyItem;
  total_items : Z;
  used_bins : Z;
  loads : option (list Z);
  best_fitness : PyFloat
}.

(** [Problem.__init__] once [load_data] has read the five fields of the
    problem file (the parser itself is not modelled). *)
Definition init (bin_size : Extent) (n_bins n_items total_volume : Z)
    (items : list Extent) : t :=
  {| bin_size := bin_size; n_bins := n_bins; n_items := n_items;
     total_volume := total_volume; items := map Some items;
     total_items := n_items * n_bins;
     used_bins := n_items * n_bins;
     loads := None;
     best_fitness := PInf |}.

Definition set_items (its : list PyItem) (p : t) : t :=
  {| bin_size := bin_size p; n_bins := n_bins p; n_items := n_items p;
     total_volume := total_volume p; items := its;
     total_items := total_items p; used_bins := used_bins p;
     loads := loads p; best_fitness := best_fitness p |}.

(** The three assignments of [evaluate] to [self.problem]. *)
Definition set_best (used : Z) (fitness : PyFloat) (lds : option (list Z))
    (p : t) : t :=
  {| bin_size := bin_size p; n_bins := n_bins p; n_items := n_items p;
     total_volume := total_volume p; items := items p;
     total_items := total_items p; used_bins := used;
     loads := lds; best_fitness := fitness |}.

End Problem.

(** ** class Placement *)

Module Placement.

(** The engine's own attributes. [self.problem] and [self.items] are
    references into the store and are not fields here. *)
Record t : Type := mk {
  bin_size : Extent;
  n_bins : Z;
  n_items : Z;
  total_volume : Z;
  used_bins : Z;
  total_items : Z;
  bins : list Bin.t;
  loads : option (list Z)
}.

(** [Placement.__init__(problem)]. *)
Definition init (problem : Problem.t) : t :=
  {| bin_size := Problem.bin_size problem;
     n_bins := Problem.n_bins problem;
     n_items := Problem.n_items problem;
     total_volume := Problem.total_volume problem;
     used_bins := 1;
     total_items := Problem.n_items problem * Problem.n_bins problem;
     bins := [Bin.init (Problem.bin_size problem)];
     loads := None |}.

Definition set_bins (bs : list Bin.t) (e : t) : t :=
  {| bin_size := bin_size e; n_bins := n_bins e; n_items := n_items e;
     total_volume := total_volume e; used_bins := used_bins e;
     total_items := total_items e; bins := bs; loads := loads e |}.

Definition set_used_bins (u : Z) (e : t) : t :=
  {| bin_size := bin_size e; n_bins := n_bins e; n_items := n_items e;
     total_volume := total_volume e; used_bins := u;
     total_items := total_items e; bins := bins e; loads := loads e |}.

Definition set_loads (l : option (list Z)) (e : t) : t :=
  {| bin_size := bin_size e; n_bins := n_bins e; n_items := n_items e;
     total_volume := total_volume e; used_bins := used_bins e;
     total_items := total_items e; bins := bins e; loads := l |}.

(** The store a call of a [Placement] method works on: the engine and the
    [Problem] record it is bound to. *)
Record World : Type := mkWorld {
  problem : Problem.t;
  self : t
}.

(** A method body: runs on a store, leaves a store, returns or raises. *)
Definition M (A : Type) : Type := World -> Result A * World.

Definition ret {A} (a : A) : M A := fun w => (OK a, w).
Definition raise {A} (e : exn) : M A := fun w => (Raise e, w).
Definition bind {A B} (c : M A) (k : A -> M B) : M B :=
  fun w => match c w with
           | (OK a, w') => k a w'
           | (Raise e, w') => (Raise e, w')
           end.
Definition lift {A} (r : Result A) : M A := fun w => (r, w).
Definition gets {A} (f : World -> A) : M A := fun w => (OK (f w), w).
Definition modify (f : World -> World) : M unit := fun w => (OK tt, f w).

Notation "x <- c ;; k" := (bind c (fun x => k))
  (at level 100, c at next level, right associativity).
Notation "c ;;; k" := (bind c (fun _ => k))
  (at level 100, right associativity).

Definition on_self (f : t -> t) (w : World) : World :=
  {| problem := problem w; self := f (self w) |}.
Definition on_problem (f : Problem.t -> Problem.t) (w : World) : World :=
  {| problem := f (problem w); self := self w |}.

(** [self.items], that is [self.problem.items]. *)
Definition items (w : World) : list PyItem := Problem.items (problem w).

(** A [for] loop over a list that the body does not change. *)
Fixpoint for_each {A} (body : A -> M unit) (l : list A) : M unit :=
  match l with
  | [] => ret tt
  | a :: l' => body a ;;; for_each body l'
  end.

(** [Placement.get_orientation(gene)]. *)
Definition get_orientation (gene : Q) : Z := Qceiling (6 * gene).

(** [Placement.get_size(item, orientation)]: unpacking [None] raises; an
    orientation that matches no branch falls off the end and returns
    [None]. *)
Definition get_size (item : PyItem) (orientation : Z) : Result PyItem :=
  match item with
  | None => Raise TypeError
  | Some (x, y, z) =>
      if orientation =? 1 then OK (Some (x, y, z))
      else if orientation =? 2 then OK (Some (x, z, y))
      else if orientation =? 3 then OK (Some (y, x, z))
      else if orientation =? 4 then OK (Some (y, z, x))
      else if orientation =? 5 then OK (Some (z, x, y))
      else if orientation =? 6 then OK (Some (z, y, x))
      else OK None
  end.

(** [l[i]] with a non-negative index. *)
Definition list_get {A} (l : list A) (i : nat) : Result A :=
  match l !! i with
  | Some a => OK a
  | None => Raise IndexError
  end.

(** [self.items[k] = size] with a non-negative index. *)
Definition items_set (k : nat) (size : PyItem) : M unit :=
  fun w =>
    if decide (k < length (items w))%nat
    then (OK tt, on_problem (Problem.set_items (<[k := size]> (items w))) w)
    else (Raise IndexError, w).

(** The body of the loop of [decode], for one [i]. *)
Definition decode_body (n : nat) (solution : list Q) (orders : list nat)
    (i : nat) : M unit :=
  its <- gets items ;;
  item <- lift (list_get its i) ;;
  gene <- lift (list_get solution (n + i)) ;;
  size <- lift (get_size item (get_orientation gene)) ;;
  k <- lift (list_get orders i) ;;
  items_set k size.

(** [Placement.decode(solution)]. Past the length test [total_items] is
    not negative, so the slice and the range have [total_items] entries. *)
Definition decode (solution : list Q) : M unit :=
  total <- gets (fun w => total_items (self w)) ;;
  if negb (Z.of_nat (length solution) =? 2 * total) then raise ValueError
  else
    let n := Z.to_nat total in
    let orders := argsort (take n solution) in
    for_each (decode_body n solution orders) (seq 0 n).


(** The rest of [for bin in self.bins] once [selected_bin] is set: nothing
    is appended any more, the later bins can only replace the selection.
    [k] is the index of the first bin of [rest] in [self.bins]. *)
Fixpoint bins_tail (item : PyItem) (rest : list Bin.t) (k : nat)
    (selected : nat * EMS) : Result (nat * EMS) :=
  match rest with
  | [] => OK selected
  | bin :: rest' =>
      match Bin.choose_py bin item with
      | Raise e => Raise e
      | OK (Some E) => bins_tail item rest' (S k) (k, E)
      | OK None => bins_tail item rest' (S k) selected
      end
  end.

(** [for bin in self.bins] of [evaluate]. [rest] is what the iterator has
    not visited yet and [k] its index; the selected bin is kept as its
    index in [self.bins]. The test [if selected_bin is None] belongs to the
    loop body, so it runs after every bin; when it appends the fresh bin,
    the iterator still reaches that bin after the ones of [rest']. *)
Fixpoint bins_loop (item : PyItem) (rest : list Bin.t) (k : nat)
    (selected : option (nat * EMS)) : M (option (nat * EMS)) :=
  match rest with
  | [] => ret selected
  | bin :: rest' =>
      EMS <- lift (Bin.choose_py bin item) ;;
      let selected :=
        match EMS with
        | Some E => Some (k, E)
        | None => selected
        end in
      match selected with
      | Some _ => bins_loop item rest' (S k) selected
      | None =>
          modify (on_self (fun e => set_used_bins (used_bins e + 1) e)) ;;;
          fresh <- gets (fun w => Bin.init (bin_size (self w))) ;;
          modify (on_self (fun e => set_bins (bins e ++ [fresh]) e)) ;;;
          last <- gets (fun w => (length (bins (self w)) - 1)%nat) ;;
          E0 <- lift (list_get (Bin.EMSs fresh) 0) ;;
          sel <- lift (bins_tail item (rest' ++ [fresh]) (S k) (last, E0)) ;;
          ret (Some sel)
      end
  end.

(** One turn of [for item in self.items]. *)
Definition place (item : PyItem) : M unit :=
  bs <- gets (fun w => bins (self w)) ;;
  selected <- bins_loop item bs 0 None ;;
  match selected with
  | None => raise AttributeError
  | Some (j, selected_EMS) =>
      bs' <- gets (fun w => bins (self w)) ;;
      bin <- lift (list_get bs' j) ;;
      bin' <- lift (Bin.update_py bin item selected_EMS) ;;
      modify (on_self (set_bins (<[j := bin']> bs')))
  end.

Definition volume (s : Extent) : Z := axis 0 s * axis 1 s * axis 2 s.

(** The end of [evaluate], from [self.loads = ...] on. *)
Definition score : M PyFloat :=
  bs <- gets (fun w => bins (self w)) ;;
  let lds := map Bin.load bs in
  modify (on_self (set_loads (Some lds))) ;;;
  m <- lift (np_min lds) ;;
  size <- gets (fun w => bin_size (self w)) ;;
  let least_load := int_truediv m (volume size) in
  used <- gets (fun w => used_bins (self w)) ;;
  let fitness := int_add_float used least_load in
  best <- gets (fun w => Problem.best_fitness (problem w)) ;;
  (if float_lt fitness best
   then modify (on_problem (Problem.set_best used fitness (Some lds)))
   else ret tt) ;;;
  ret fitness.

(** The packing loop of [evaluate]. *)
Definition pack : M unit :=
  its <- gets items ;;
  for_each place its.

(** [Placement.evaluate(solution)]. *)
Definition evaluate (solution : list Q) : M PyFloat :=
  decode solution ;;;
  pack ;;;
  score.

(** A fresh engine bound to a problem record. *)
Definition fresh (p : Problem.t) : World :=
  {| problem := p; self := init p |}.

End Placement.

(** ** class Generator ([Data/Generator.py])

    The random module is an input of the model: [rand k a b] stands for
    the value that the [k]-th call [random.randint(a, b)] of a run
    returns, and [shuffle] for what [random.shuffle] makes of a list.
    The while loop of [generate] runs on fuel, [None] meaning that the
    fuel ran out before the loop was left. Writing the file and the
    plots are not modelled. *)

Module Generator.

(** An entry of [self.items]: the pair [(origin, item)]. *)
Definition Piece : Type := Extent * Extent.

Record t : Type := mk {
  n_items : Z;
  seed : Z;
  bin_size : Extent;
  items : list Piece;
  volume : Z;
  n_samples : Z
}.

(** [Generator.__init__(n_items, seed, bin_size, **kargs)]; [n_samples]
    is [Some s] when the keyword is given. *)
Definition init (n_items seed : Z) (bin_size : Extent)
    (n_samples : option Z) : Result t :=
  let volume := axis 0 bin_size * axis 1 bin_size * axis 2 bin_size in
  match n_samples with
  | Some s =>
      if (s <? 0) || (s >? n_items) then Raise ValueError
      else OK {| n_items := n_items; seed := seed; bin_size := bin_size;
                 items := []; volume := volume; n_samples := s |}
  | None =>
      OK {| n_items := n_items; seed := seed; bin_size := bin_size;
            items := []; volume := volume; n_samples := n_items / 10 |}
  end.

(** The sort key [lambda x: x[1][0] * x[1][1] * x[1][2]]. *)
Definition piece_volume (p : Piece) : Z :=
  axis 0 (snd p) * axis 1 (snd p) * axis 2 (snd p).

(** The sort key [lambda x: x[0][2]]. *)
Definition piece_height (p : Piece) : Z := axis 2 (fst p).

(** [item.index(max(item))]: the first position of the largest extent. *)
Definition index_max (item : Extent) : nat :=
  let '(a, b, c) := item in
  let m := Z.max a (Z.max b c) in
  if a =? m then 0%nat else if b =? m then 1%nat else 2%nat.

(** A copy of [t] with [t[i] = v]. *)
Definition set_axis (i : nat) (v : Z) (t : Extent) : Extent :=
  let '(x, y, z) := t in
  match i with
  | O => (v, y, z)
  | S O => (x, v, z)
  | _ => (x, y, v)
  end.

(** [list.sort(key=...)]: ascending and stable. Built by inserting the
    elements from the last to the first, each in front of the first
    element whose key is not smaller. *)
Fixpoint insert_by (key : Piece -> Z) (x : Piece) (sorted : list Piece)
    : list Piece :=
  match sorted with
  | [] => [x]
  | y :: rest =>
      if key x <=? key y then x :: y :: rest
      else y :: insert_by key x rest
  end.

Definition sort_by (key : Piece -> Z) (l : list Piece) : list Piece :=
  foldr (insert_by key) [] l.

(** [list.pop()]: takes the last element; [IndexError] on an empty list. *)
Definition pop (l : list Piece) : Result (Piece * list Piece) :=
  match reverse l with
  | [] => Raise IndexError
  | p :: r => OK (p, reverse r)
  end.

(** [random.randint(a, b)] returning [draw]; [ValueError] on an empty
    range. *)
Definition randint (draw a b : Z) : Result Z :=
  if b <? a then Raise ValueError else OK draw.

(** The body of the while loop of [generate]; [k] counts the calls of
    [randint] so far. *)
Definition split_body (rand : nat -> Z -> Z -> Z) (k : nat)
    (items : list Piece) : Result (nat * list Piece) :=
  match pop items with
  | Raise e => Raise e
  | OK ((origin, item), rest) =>
      let dimension := index_max item in
      let size := axis dimension item in
      if size =? 1 then OK (k, rest ++ [(origin, item)])
      else
        match randint (rand k 1 (size - 1)) 1 (size - 1) with
        | Raise e => Raise e
        | OK cut_point =>
            let new_item1 := set_axis dimension cut_point item in
            let new_item2 := set_axis dimension (size - cut_point) item in
            let new_origin1 := origin in
            let new_origin2 :=
              set_axis dimension (axis dimension origin + cut_point) origin in
            OK (S k,
                sort_by piece_volume
                  (rest ++ [(new_origin1, new_item1); (new_origin2, new_item2)]))
        end
  end.

(** [while len(self.items) < self.n_items + self.n_samples]. *)
Fixpoint split_loop (rand : nat -> Z -> Z -> Z) (fuel : nat) (target : Z)
    (k : nat) (items : list Piece) : option (Result (list Piece)) :=
  if Z.of_nat (length items) <? target then
    match fuel with
    | O => None
    | S fuel' =>
        match split_body rand k items with
        | Raise e => Some (Raise e)
        | OK (k', items') => split_loop rand fuel' target k' items'
        end
    end
  else Some (OK items).

(** [for _ in range(residual)]: pops the topmost pieces and takes their
    volumes off [self.volume]. *)
Fixpoint remove_topmost (residual : nat) (items : list Piece) (volume : Z)
    : Result (list Piece * Z) :=
  match residual with
  | O => OK (items, volume)
  | S r =>
      match pop items with
      | Raise e => Raise e
      | OK (p, rest) => remove_topmost r rest (volume - piece_volume p)
      end
  end.

(** [Generator.generate()], up to the list and the volume it writes to
    the file. *)
Definition generate (rand : nat -> Z -> Z -> Z)
    (shuffle : list Piece -> list Piece) (fuel : nat) (g : t)
    : option (Result t) :=
  if (n_items g <? 10) || (n_items g >? 1000) then Some (Raise ValueError)
  else
    match split_loop rand fuel (n_items g + n_samples g) 0
            [((0, 0, 0), bin_size g)] with
    | None => None
    | Some (Raise e) => Some (Raise e)
    | Some (OK its) =>
        let sorted := sort_by piece_height its in
        let residual := Z.of_nat (length sorted) - n_items g in
        match remove_topmost (Z.to_nat residual) sorted (volume g) with
        | Raise e => Some (Raise e)
        | OK (its', volume') =>
            Some (OK {| n_items := n_items g; seed := seed g;
                        bin_size := bin_size g; items := shuffle its';
                        volume := volume'; n_samples := n_samples g |})
        end
    end.

End Generator.

(** ** Vocabulary of the properties *)

(** Componentwise order on corners. *)
Definition corner_le (a b : Extent) : Prop :=
  axis 0 a <= axis 0 b /\ axis 1 a <= axis 1 b /\ axis 2 a <= axis 2 b.

(** [A] is inscribed in [B]: componentwise, [A.min >= B.min] and
    [A.max <= B.max]. *)
Definition contained (A B : EMS) : Prop :=
  corner_le (fst B) (fst A) /\ corner_le (snd A) (snd B).

(** Strictly positive extent on the three axes. *)
Definition positive_extent (E : EMS) : Prop :=
  axis 0 (fst E) < axis 0 (snd E) /\
  axis 1 (fst E) < axis 1 (snd E) /\
  axis 2 (fst E) < axis 2 (snd E).

(** No EMS of the list is inscribed in another EMS of the list. *)
Definition pruned (l : list EMS) : Prop :=
  forall (i j : nat) (A B : EMS),
    i <> j -> l !! i = Some A -> l !! j = Some B -> ~ contained A B.

(** The same, by recursion on the list. *)
Fixpoint pruned_rec (l : list EMS) : Prop :=
  match l with
  | [] => True
  | A :: l' =>
      (forall B, B ∈ l' -> ~ contained A B /\ ~ contained B A) /\ pruned_rec l'
  end.


(** The invariant of a bin's EMS set. *)
Definition ems_invariant (l : list EMS) : Prop :=
  pruned l /\ forall E, E ∈ l -> positive_extent E.

(** The sum of the loads of a list of bins. *)
Definition total_load (bs : list Bin.t) : Z :=
  foldr Z.add 0 (map Bin.load bs).

(** The volume an entry of the item list adds to a bin. *)
Definition item_volume (it : PyItem) : Z :=
  match it with
  | Some e => Placement.volume e
  | None => 0
  end.

(** Every EMS of the bin reaches from a corner with no negative
    coordinate to the far corner of the bin. *)
Definition bin_wf (b : Bin.t) : Prop :=
  forall E, E ∈ Bin.EMSs b ->
    snd E = Bin.size b /\ corner_le (0, 0, 0) (fst E).

(** The engine counts its bins: [used_bins] is the length of [bins]. *)
Definition counts_bins (e : Placement.t) : Prop :=
  Placement.used_bins e = Z.of_nat (length (Placement.bins e)).

(** A piece lies inside the bin and has no extent below 1. *)
Definition piece_inside (bin : Extent) (p : Generator.Piece) : Prop :=
  forall i, (i < 3)%nat ->
    1 <= axis i (snd p) /\ 0 <= axis i (fst p) /\
    axis i (fst p) + axis i (snd p) <= axis i bin.

(** The sum of the volumes of a list of pieces. *)
Definition pieces_volume (l : list Generator.Piece) : Z :=
  foldr Z.add 0 (map Generator.piece_volume l).

(** * Properties *)

(** ** The fit test and the choice of an EMS *)

Section Choice.

Implicit Types (item size : Extent) (E : EMS) (b : Bin.t).

Lemma fit_true item E :
  Bin.fit item E = true <->
  axis 0 (fst E) + axis 0 item <= axis 0 (snd E) /\
  axis 1 (fst E) + axis 1 item <= axis 1 (snd E) /\
  axis 2 (fst E) + axis 2 item <= axis 2 (snd E).
Proof.
  unfold Bin.fit.
  destruct (Z.gtb_spec (axis 0 (fst E) + axis 0 item) (axis 0 (snd E)));
    [split; [discriminate | lia] |].
  destruct (Z.gtb_spec (axis 1 (fst E) + axis 1 item) (axis 1 (snd E)));
    [split; [discriminate | lia] |].
  destruct (Z.gtb_spec (axis 2 (fst E) + axis 2 item) (axis 2 (snd E)));
    [split; [discriminate | lia] |].
  split; [lia | reflexivity].
Qed.

Lemma axis_cases (P : nat -> Prop) :
  (forall i, (i < 3)%nat -> P i) <-> P 0%nat /\ P 1%nat /\ P 2%nat.
Proof.
  split.
  - intros H. repeat split; apply H; lia.
  - intros (H0 & H1 & H2) i Hi.
    destruct i as [|[|[|i]]]; try assumption. lia.
Qed.

Lemma distance_nonneg size item E : 0 <= Bin.distance size item E.
Proof.
  unfold Bin.distance. cbv zeta.
  repeat apply Z.add_nonneg_nonneg; apply Z.pow_even_nonneg; now exists 1.
Qed.

(** What the loop of [choose] returns, from any point of its run: the
    selection so far, when there is one, fits and sits at distance
    [max_distance]. *)
Lemma choose_loop_spec size item (l : list EMS) :
  forall (m : Z) (sel : option EMS),
    match sel with
    | Some E0 => m = Bin.distance size item E0 /\ Bin.fit item E0 = true
    | None => m = -1
    end ->
    match Bin.choose_loop size item l m sel with
    | Some E =>
        Bin.fit item E = true /\ (E ∈ l \/ sel = Some E) /\
        m <= Bin.distance size item E /\
        (forall E', E' ∈ l -> Bin.fit item E' = true ->
                    Bin.distance size item E' <= Bin.distance size item E)
    | None => sel = None /\ forall E', E' ∈ l -> Bin.fit item E' = false
    end.
Proof.
  induction l as [|E0 l IH]; intros m sel Hsel; simpl.
  - destruct sel as [E|].
    + destruct Hsel as [-> Hfit]. repeat split; auto.
      * lia.
      * intros E' HE'. inversion HE'.
    + split; [reflexivity|]. intros E' HE'. inversion HE'.
  - destruct (Bin.fit item E0) eqn:Hfit0.
    + destruct (Z.gtb_spec (Bin.distance size item E0) m) as [Hgt|Hle].
      * specialize (IH (Bin.distance size item E0) (Some E0) (conj eq_refl Hfit0)).
        destruct (Bin.choose_loop size item l _ (Some E0)) as [E|].
        -- destruct IH as (Hf & Hin & Hm & Hmax). repeat split.
           ++ exact Hf.
           ++ left. destruct Hin as [Hin|Heq].
              ** now apply list_elem_of_further.
              ** injection Heq as <-. apply list_elem_of_here.
           ++ lia.
           ++ intros E' HE' HfE'. apply elem_of_cons in HE' as [->|HE'].
              ** exact Hm.
              ** now apply Hmax.
        -- destruct IH as [Hno _]. discriminate.
      * specialize (IH m sel Hsel).
        destruct (Bin.choose_loop size item l m sel) as [E|].
        -- destruct IH as (Hf & Hin & Hm & Hmax). repeat split.
           ++ exact Hf.
           ++ destruct Hin as [Hin|Heq]; [left | now right].
              now apply list_elem_of_further.
           ++ exact Hm.
           ++ intros E' HE' HfE'. apply elem_of_cons in HE' as [->|HE'].
              ** lia.
              ** now apply Hmax.
        -- destruct IH as [-> _]. subst m.
           pose proof (distance_nonneg size item E0). lia.
    + specialize (IH m sel Hsel).
      destruct (Bin.choose_loop size item l m sel) as [E|].
      * destruct IH as (Hf & Hin & Hm & Hmax). repeat split.
        -- exact Hf.
        -- destruct Hin as [Hin|Heq]; [left | now right].
           now apply list_elem_of_further.
        -- exact Hm.
        -- intros E' HE' HfE'. apply elem_of_cons in HE' as [->|HE'].
           ++ congruence.
           ++ now apply Hmax.
      * destruct IH as [-> Hno]. split; [reflexivity|].
        intros E' HE'. apply elem_of_cons in HE' as [->|HE']; auto.
Qed.

End Choice.

(** C6. [fit(item, EMS)] is true exactly when on each of the three axes
    [EMS.min + item <= EMS.max]; so it is false as soon as the item
    exceeds the remaining span of the EMS on a single axis, whatever the
    other two axes do. *)
Theorem fit_iff_all_axes (item : Extent) (E : EMS) :
  (Bin.fit item E = true <->
   forall i, (i < 3)%nat -> axis i (fst E) + axis i item <= axis i (snd E))
  /\
  ((exists i, (i < 3)%nat /\ axis i (snd E) - axis i (fst E) < axis i item) ->
   Bin.fit item E = false).
Proof.
  assert (Hiff : Bin.fit item E = true <->
      forall i, (i < 3)%nat -> axis i (fst E) + axis i item <= axis i (snd E)).
  { rewrite fit_true.
    symmetry.
    apply (axis_cases
      (fun i => axis i (fst E) + axis i item <= axis i (snd E))). }
  split; [exact Hiff|].
  intros (i & Hi & Hover).
  apply not_true_is_false. intros Hfit.
  pose proof (proj1 Hiff Hfit i Hi). lia.
Qed.

(** C7. [choose(item)] returns an EMS of the bin that fits the item and
    whose squared distance from the item's far corner to the bin's far
    corner is maximal among the EMSs of the bin that fit; it returns
    [None] when no EMS of the bin fits. *)
Theorem choose_farthest_fit (b : Bin.t) (item : Extent) :
  match Bin.choose b item with
  | Some E =>
      E ∈ Bin.EMSs b /\ Bin.fit item E = true /\
      Bin.distance (Bin.size b) item E =
        (axis 0 (Bin.size b) - (axis 0 (fst E) + axis 0 item)) ^ 2
        + (axis 1 (Bin.size b) - (axis 1 (fst E) + axis 1 item)) ^ 2
        + (axis 2 (Bin.size b) - (axis 2 (fst E) + axis 2 item)) ^ 2 /\
      (forall E', E' ∈ Bin.EMSs b -> Bin.fit item E' = true ->
         Bin.distance (Bin.size b) item E' <= Bin.distance (Bin.size b) item E)
  | None => forall E', E' ∈ Bin.EMSs b -> Bin.fit item E' = false
  end.
Proof.
  unfold Bin.choose.
  pose proof (choose_loop_spec (Bin.size b) item (Bin.EMSs b) (-1) None eq_refl) as H.
  destruct (Bin.choose_loop _ _ _ _ _) as [E|].
  - destruct H as (Hf & [Hin|Hin] & _ & Hmax); [|discriminate].
    repeat split; auto.
  - now destruct H.
Qed.

(** ** The EMS set of a bin under [update] *)

Section Pruning.

Implicit Types (item : Extent) (A B C E S : EMS) (l cur : list EMS).

Lemma pruned_rec_iff l : pruned l <-> pruned_rec l.
Proof.
  split.
  - induction l as [|A l IH]; intros H; simpl; [exact I|]. split.
    + intros B HB. apply list_elem_of_lookup in HB as [j Hj]. split.
      * apply (H 0%nat (S j)); auto.
      * apply (H (S j) 0%nat); auto.
    + apply IH. intros i j A' B' Hne Hi Hj.
      apply (H (S i) (S j)); auto.
  - induction l as [|A l IH]; intros H i j A' B' Hne Hi Hj.
    + discriminate.
    + destruct H as [Hhead Htail].
      destruct i as [|i], j as [|j]; simpl in Hi, Hj.
      * congruence.
      * injection Hi as <-. apply Hhead. eapply list_elem_of_lookup_2, Hj.
      * injection Hj as <-. apply Hhead. eapply list_elem_of_lookup_2, Hi.
      * apply (IH Htail i j); auto.
Qed.

Lemma pruned_rec_app l1 l2 :
  pruned_rec (l1 ++ l2) <->
  pruned_rec l1 /\ pruned_rec l2 /\
  forall A B, A ∈ l1 -> B ∈ l2 -> ~ contained A B /\ ~ contained B A.
Proof.
  induction l1 as [|A0 l1 IH]; simpl.
  - split.
    + intros H. split; [exact I|]. split; [exact H|].
      intros A B HA. inversion HA.
    + intros (_ & H & _). exact H.
  - rewrite IH. split.
    + intros (Hhead & H1 & H2 & Hcross). split; [split|split].
      * intros B HB. apply Hhead, elem_of_app. now left.
      * exact H1.
      * exact H2.
      * intros A B HA HB. apply elem_of_cons in HA as [->|HA].
        -- apply Hhead, elem_of_app. now right.
        -- now apply Hcross.
    + intros ((Hhead & H1) & H2 & Hcross). split; [|split; [|split]].
      * intros B HB. apply elem_of_app in HB as [HB|HB]; [now apply Hhead|].
        apply Hcross; [apply list_elem_of_here | exact HB].
      * exact H1.
      * exact H2.
      * intros A B HA HB.
        apply Hcross; [now apply list_elem_of_further | exact HB].
Qed.

(** [remove] succeeds on a member and takes out its first occurrence. *)
Lemma list_remove_member S l :
  S ∈ l ->
  exists l1 l2, l = l1 ++ S :: l2 /\ Bin.list_remove S l = OK (l1 ++ l2).
Proof.
  induction l as [|E l IH]; intros Hin; [inversion Hin|].
  simpl. destruct (decide (E = S)) as [->|Hne].
  - exists [], l. split; reflexivity.
  - apply elem_of_cons in Hin as [->|Hin]; [congruence|].
    destruct (IH Hin) as (l1 & l2 & -> & ->).
    exists (E :: l1), l2. split; reflexivity.
Qed.

Lemma list_remove_absent S l :
  S ∉ l -> Bin.list_remove S l = Raise ValueError.
Proof.
  induction l as [|E l IH]; intros Hnin; [reflexivity|].
  simpl. destruct (decide (E = S)) as [->|Hne].
  - exfalso. apply Hnin, list_elem_of_here.
  - rewrite IH; [reflexivity|]. intros H. apply Hnin. now apply list_elem_of_further.
Qed.

(** The lexicographic test of the code accepts every pair that is
    inscribed componentwise. *)
Lemma contained_inscribed A B : contained A B -> Bin.inscribed A B = true.
Proof.
  destruct A as [[[a0 a1] a2] [[a3 a4] a5]], B as [[[b0 b1] b2] [[b3 b4] b5]].
  unfold contained, corner_le, Bin.inscribed, tuple_ge, tuple_le. simpl.
  intros ((H0 & H1 & H2) & (H3 & H4 & H5)).
  apply andb_true_intro. split.
  - destruct (Z.eqb_spec a0 b0); simpl; [|lia].
    destruct (Z.eqb_spec a1 b1); simpl; lia.
  - destruct (Z.eqb_spec a3 b3); simpl; [|lia].
    destruct (Z.eqb_spec a4 b4); simpl; lia.
Qed.

Lemma contained_trans A B C : contained A B -> contained B C -> contained A C.
Proof. unfold contained, corner_le. intuition lia. Qed.

Lemma contained_refl A : contained A A.
Proof. unfold contained, corner_le. intuition lia. Qed.

Lemma not_degenerate_positive E :
  Bin.degenerate E = false -> positive_extent E.
Proof.
  unfold Bin.degenerate, positive_extent. intros H.
  apply orb_false_elim in H as [H H2]. apply orb_false_elim in H as [H0 H1].
  lia.
Qed.

Lemma existsb_inscribed_false C cur :
  existsb (Bin.inscribed C) cur = false ->
  forall E, E ∈ cur -> ~ contained C E.
Proof.
  intros H E HE Hc. apply contained_inscribed in Hc.
  assert (existsb (Bin.inscribed C) cur = true); [|congruence].
  apply existsb_exists. exists E. split; [now apply list_elem_of_In | exact Hc].
Qed.

(** The loop over the candidates keeps the invariant, provided no EMS
    present is inscribed in a candidate and no candidate is inscribed in
    a later one. *)
Lemma append_valid_invariant (cands : list EMS) :
  forall cur,
    pruned_rec cur -> (forall E, E ∈ cur -> positive_extent E) ->
    (forall C E, C ∈ cands -> E ∈ cur -> ~ contained E C) ->
    ForallOrdPairs (fun C C' => ~ contained C C') cands ->
    pruned_rec (Bin.append_valid cands cur) /\
    forall E, E ∈ Bin.append_valid cands cur -> positive_extent E.
Proof.
  induction cands as [|C cands IH]; intros cur Hpr Hpos Hold Hcands; simpl.
  - split; assumption.
  - inversion Hcands as [|C0 cands0 Hhead Htail]; subst.
    rewrite Forall_forall in Hhead.
    destruct (Bin.isValid C cur) eqn:Hvalid.
    + unfold Bin.isValid in Hvalid.
      apply andb_prop in Hvalid as [Hdeg Hins].
      apply negb_true_iff in Hdeg, Hins.
      apply IH.
      * apply pruned_rec_app. split; [exact Hpr|]. split.
        -- simpl. split; [|exact I]. intros B HB. inversion HB.
        -- intros A B HA HB. apply list_elem_of_singleton in HB as ->. split.
           ++ apply Hold; [apply list_elem_of_here | exact HA].
           ++ now apply (existsb_inscribed_false C cur).
      * intros E HE. apply elem_of_app in HE as [HE|HE]; [now apply Hpos|].
        apply list_elem_of_singleton in HE as ->.
        now apply not_degenerate_positive.
      * intros C' E HC' HE. apply elem_of_app in HE as [HE|HE].
        -- apply Hold; [now apply list_elem_of_further | exact HE].
        -- apply list_elem_of_singleton in HE as ->. now apply Hhead.
      * exact Htail.
    + apply IH; auto.
      intros C' E HC' HE.
      apply Hold; [now apply list_elem_of_further | exact HE].
Qed.

(** Every candidate lies inside the chosen EMS when the item has no
    negative extent. *)
Lemma new_EMSs_contained item S C :
  0 <= axis 0 item -> 0 <= axis 1 item -> 0 <= axis 2 item ->
  C ∈ Bin.new_EMSs item S -> contained C S.
Proof.
  destruct S as [[[x1 y1] z1] [[x3 y3] z3]], item as [[ix iy] iz].
  unfold Bin.new_EMSs. simpl. intros Hx Hy Hz HC.
  repeat (apply elem_of_cons in HC as [->|HC]);
    [| | | inversion HC];
    unfold contained, corner_le; simpl; lia.
Qed.

(** With positive Y and Z extents no candidate is inscribed in a later
    one. *)
Lemma new_EMSs_forward item S :
  0 < axis 1 item -> 0 < axis 2 item ->
  ForallOrdPairs (fun C C' => ~ contained C C') (Bin.new_EMSs item S).
Proof.
  destruct S as [[[x1 y1] z1] [[x3 y3] z3]], item as [[ix iy] iz].
  unfold Bin.new_EMSs. simpl. intros Hy Hz.
  repeat constructor; unfold contained, corner_le; simpl; lia.
Qed.

End Pruning.

Lemma fresh_bin_invariant (size : Extent) :
  0 < axis 0 size -> 0 < axis 1 size -> 0 < axis 2 size ->
  ems_invariant (Bin.EMSs (Bin.init size)).
Proof.
  intros H0 H1 H2. split.
  - apply pruned_rec_iff. simpl. split; [|exact I].
    intros B HB. inversion HB.
  - intros E HE. apply list_elem_of_singleton in HE as ->.
    destruct size as [[sx sy] sz]. unfold positive_extent. simpl in *. lia.
Qed.

(** C4, as the code has it. When the EMS set of a bin is pruned and of
    positive extents, the chosen EMS belongs to it and the item has
    positive Y and Z extents and no negative X extent, [update] returns
    and the EMS set it leaves is again pruned (no EMS inscribed
    componentwise in another) and of positive extents. *)
Theorem update_keeps_ems_invariant (b : Bin.t) (item : Extent) (S : EMS) :
  ems_invariant (Bin.EMSs b) ->
  S ∈ Bin.EMSs b ->
  0 <= axis 0 item -> 0 < axis 1 item -> 0 < axis 2 item ->
  exists b', Bin.update b item S = OK b' /\ ems_invariant (Bin.EMSs b').
Proof.
  intros [Hpr Hpos] HS Hx Hy Hz.
  destruct (list_remove_member S (Bin.EMSs b) HS) as (l1 & l2 & Heq & Hrem).
  unfold Bin.update. rewrite Hrem. eexists. split; [reflexivity|]. simpl.
  apply pruned_rec_iff in Hpr. rewrite Heq in Hpr, Hpos.
  apply pruned_rec_app in Hpr as (Hp1 & [HheadS Hp2] & Hcross).
  assert (Hrest : forall E, E ∈ l1 ++ l2 -> ~ contained E S).
  { intros E HE. apply elem_of_app in HE as [HE|HE].
    - apply (Hcross E S HE), list_elem_of_here.
    - now apply HheadS. }
  destruct (append_valid_invariant (Bin.new_EMSs item S) (l1 ++ l2)) as [Hq Hp].
  - apply pruned_rec_app. split; [exact Hp1|]. split; [exact Hp2|].
    intros A B HA HB. apply Hcross; [exact HA | now apply list_elem_of_further].
  - intros E HE. apply Hpos. apply elem_of_app in HE as [HE|HE].
    + apply elem_of_app. now left.
    + apply elem_of_app. right. now apply list_elem_of_further.
  - intros C E HC HE Hc. apply (Hrest E HE).
    apply (contained_trans E C S Hc).
    apply (new_EMSs_contained item S C); auto; lia.
  - now apply new_EMSs_forward.
  - split; [now apply pruned_rec_iff | exact Hp].
Qed.

Lemma update_keeps_ems_invariant_witness :
  exists b',
    Bin.update (Bin.init (10, 10, 10)) (5, 5, 5) ((0, 0, 0), (10, 10, 10)) = OK b'
    /\ ems_invariant (Bin.EMSs b').
Proof.
  apply update_keeps_ems_invariant.
  - apply fresh_bin_invariant; simpl; lia.
  - apply list_elem_of_here.
  - simpl; lia.
  - simpl; lia.
  - simpl; lia.
Defined.

(** C4 fails as stated: an item of zero Y extent placed in a fresh bin
    gives back the chosen EMS as second candidate, after the first
    candidate, which lies inside it, has been appended. *)
Lemma update_zero_extent_not_pruned :
  Bin.update (Bin.init (10, 10, 10)) (5, 0, 5) ((0, 0, 0), (10, 10, 10))
  = OK {| Bin.size := (10, 10, 10);
          Bin.EMSs := [((5, 0, 0), (10, 10, 10)); ((0, 0, 0), (10, 10, 10))];
          Bin.load := 0 |}
  /\ ~ ems_invariant [((5, 0, 0), (10, 10, 10)); ((0, 0, 0), (10, 10, 10))].
Proof.
  split; [reflexivity|].
  intros [Hpr _].
  apply (Hpr 0%nat 1%nat ((5, 0, 0), (10, 10, 10)) ((0, 0, 0), (10, 10, 10)));
    [lia | reflexivity | reflexivity |].
  unfold contained, corner_le. simpl. lia.
Qed.

(** C8, at the input where the code leaves the claim. In the bin that
    holds one item (2,2,10), the item (3,1,10) goes to the EMS at
    (2,0,0); its first candidate [(5,0,0),(10,10,10)] has positive extent
    on the three axes and is inscribed componentwise in no EMS of the
    bin, yet [update] discards it, because [inscribed] compares the
    corner tuples in lexicographic order. *)
Theorem update_discards_candidate_not_inscribed :
  let M := (10, 10, 10) in
  let b := {| Bin.size := M;
              Bin.EMSs := [((2, 0, 0), M); ((0, 2, 0), M)];
              Bin.load := 40 |} in
  Bin.update (Bin.init M) (2, 2, 10) ((0, 0, 0), M) = OK b /\
  Bin.choose b (3, 1, 10) = Some ((2, 0, 0), M) /\
  Bin.new_EMSs (3, 1, 10) ((2, 0, 0), M)
    = [((5, 0, 0), M); ((2, 1, 0), M); ((2, 0, 10), M)] /\
  Bin.update b (3, 1, 10) ((2, 0, 0), M)
    = OK {| Bin.size := M; Bin.EMSs := [((0, 2, 0), M)]; Bin.load := 70 |} /\
  positive_extent ((5, 0, 0), M) /\
  ~ contained ((5, 0, 0), M) ((0, 2, 0), M) /\
  Bin.inscribed ((5, 0, 0), M) ((0, 2, 0), M) = true.
Proof.
  repeat split; try reflexivity; try (simpl; lia).
  unfold contained, corner_le. simpl. lia.
Qed.

(** ** Runs of [decode] and [evaluate] on concrete inputs *)

Import Placement.

(** C1, at the input where the code leaves the claim. Bin size
    (10,10,10), items (10,10,10), (10,10,5), (10,10,5) packed in this
    order. When the third item comes, bin 0 is full and bin 1 offers a
    fit; the test [selected_bin is None] runs right after bin 0, inside
    the loop over the bins, and opens a third bin. *)
Theorem new_bin_opened_despite_fit :
  let p := Problem.init (10, 10, 10) 1 3 2000
             [(10, 10, 10); (10, 10, 5); (10, 10, 5)] in
  let solution := [1#10; 2#10; 3#10; 1#10; 1#10; 1#10]%Q in
  let w1 := snd (decode solution (fresh p)) in
  let w2 := snd (for_each place [Some (10, 10, 10); Some (10, 10, 5)] w1) in
  let w3 := snd (place (Some (10, 10, 5)) w2) in
  items w1 = [Some (10, 10, 10); Some (10, 10, 5); Some (10, 10, 5)] /\
  used_bins (self w2) = 2 /\ length (bins (self w2)) = 2%nat /\
  (exists b1, bins (self w2) !! 1%nat = Some b1 /\
              Bin.choose b1 (10, 10, 5) = Some ((0, 0, 5), (10, 10, 10))) /\
  fst (place (Some (10, 10, 5)) w2) = OK tt /\
  used_bins (self w3) = 3 /\ length (bins (self w3)) = 3%nat /\
  map Bin.load (bins (self w3)) = [1000; 500; 500] /\
  fst (evaluate solution (fresh p)) = OK (Fin (7 # 2)) /\
  used_bins (self (snd (evaluate solution (fresh p)))) = 3.
Proof.
  cbv zeta. repeat split; try (vm_compute; reflexivity).
  eexists. split; vm_compute; reflexivity.
Qed.

(** C2, at the input where the code leaves the claim. Two items and
    priority genes that put the second item first: [decode] writes the
    oriented first item over the second before it has read the second,
    so (2,2,2) is lost and (1,1,1) is there twice. *)
Theorem decode_drops_an_item :
  let p := Problem.init (10, 10, 10) 1 2 9 [(1, 1, 1); (2, 2, 2)] in
  let solution := [9#10; 1#10; 1#10; 1#10]%Q in
  argsort (take 2 solution) = [1%nat; 0%nat] /\
  fst (decode solution (fresh p)) = OK tt /\
  items (snd (decode solution (fresh p))) = [Some (1, 1, 1); Some (1, 1, 1)] /\
  Some (2, 2, 2) ∉ items (snd (decode solution (fresh p))).
Proof.
  cbv zeta. repeat split; try (vm_compute; reflexivity).
  intros H. vm_compute in H.
  repeat (apply elem_of_cons in H as [H|H]; [discriminate|]).
  inversion H.
Qed.

(** C3, at the input where the code leaves the claim. One item (10,5,5),
    bin size (10,5,10), orientation gene 0.5 (orientation 3, which swaps
    X and Y). The first engine turns the item of the problem record into
    (5,10,5), which fits no bin; the second engine, bound to the same
    record, turns it back into (10,5,5), which fits the first bin. *)
Theorem second_engine_differs :
  let p := Problem.init (10, 5, 10) 1 1 250 [(10, 5, 5)] in
  let solution := [1#2; 1#2]%Q in
  let r1 := evaluate solution (fresh p) in
  let p' := problem (snd r1) in
  let r2 := evaluate solution (fresh p') in
  init p' = init p /\
  fst r1 = OK (Fin 2) /\
  loads (self (snd r1)) = Some [0; 250] /\
  Problem.items p' = [Some (5, 10, 5)] /\
  fst r2 = OK (Fin (3 # 2)) /\
  loads (self (snd r2)) = Some [250].
Proof. cbv zeta. repeat split; vm_compute; reflexivity. Qed.

(** C5, as the code has it. A solution whose length is not
    [2 * total_items] makes [evaluate] raise [ValueError], and the store
    (engine, bins, problem record) is left as it was. *)
Theorem evaluate_bad_length (solution : list Q) (w : World) :
  Z.of_nat (length solution) <> 2 * total_items (self w) ->
  evaluate solution w = (Raise ValueError, w).
Proof.
  intros Hlen. unfold evaluate, decode, bind, gets, raise.
  destruct (Z.eqb_spec (Z.of_nat (length solution)) (2 * total_items (self w)));
    [contradiction | reflexivity].
Qed.

Lemma evaluate_bad_length_witness :
  let w := fresh (Problem.init (10, 10, 10) 1 2 9 [(1, 1, 1); (2, 2, 2)]) in
  evaluate [1#10; 2#10; 1#2]%Q w = (Raise ValueError, w).
Proof.
  cbv zeta. apply evaluate_bad_length. vm_compute. discriminate.
Defined.

(** C5 fails as stated: with an orientation gene 0 for the second item,
    [decode] writes [None] into the item list of the problem record, the
    first item is packed, and only then the call fails. *)
Lemma evaluate_fails_after_writes :
  let w := fresh (Problem.init (10, 10, 10) 1 2 9 [(1, 1, 1); (2, 2, 2)]) in
  let r := evaluate [1#10; 2#10; 1#2; 0]%Q w in
  fst r = Raise TypeError /\
  snd r <> w /\
  Problem.items (problem (snd r)) = [Some (1, 1, 1); None] /\
  map Bin.load (bins (self (snd r))) = [1].
Proof.
  cbv zeta. repeat split; try (vm_compute; reflexivity).
  intros H. apply (f_equal items) in H. vm_compute in H. discriminate.
Qed.

(** ** The fitness *)

Section Fitness.

Lemma fold_left_min_spec (l : list Z) :
  forall x,
    (fold_left Z.min l x = x \/ fold_left Z.min l x ∈ l) /\
    fold_left Z.min l x <= x /\
    forall y, y ∈ l -> fold_left Z.min l x <= y.
Proof.
  induction l as [|a l IH]; intros x; simpl.
  - split; [now left|]. split; [lia|]. intros y Hy. inversion Hy.
  - destruct (IH (Z.min x a)) as (Hmem & Hle & Hall). split; [|split].
    + destruct Hmem as [Heq|Hin].
      * rewrite Heq. destruct (Z.min_spec x a) as [[_ ->]|[_ ->]].
        -- now left.
        -- right. apply list_elem_of_here.
      * right. now apply list_elem_of_further.
    + lia.
    + intros y Hy. apply elem_of_cons in Hy as [->|Hy]; [lia | now apply Hall].
Qed.

Lemma np_min_spec (l : list Z) (m : Z) :
  np_min l = OK m -> m ∈ l /\ forall y, y ∈ l -> m <= y.
Proof.
  destruct l as [|x l]; simpl; [discriminate|].
  intros [= <-]. destruct (fold_left_min_spec l x) as (Hmem & Hle & Hall).
  split.
  - destruct Hmem as [->|Hin]; [apply list_elem_of_here|].
    now apply list_elem_of_further.
  - intros y Hy. apply elem_of_cons in Hy as [->|Hy]; [exact Hle | now apply Hall].
Qed.

(** [score] leaves the bins and [used_bins] alone, records the loads and
    returns the fitness computed from them. *)
Lemma score_spec (w w' : World) (f : PyFloat) :
  score w = (OK f, w') ->
  bins (self w') = bins (self w) /\
  used_bins (self w') = used_bins (self w) /\
  bin_size (self w') = bin_size (self w) /\
  loads (self w') = Some (map Bin.load (bins (self w))) /\
  exists m, np_min (map Bin.load (bins (self w))) = OK m /\
    f = int_add_float (used_bins (self w))
          (int_truediv m (volume (bin_size (self w)))).
Proof.
  unfold score, bind, gets, modify, lift, ret. simpl.
  destruct (np_min (map Bin.load (bins (self w)))) as [m|e] eqn:Hmin;
    [|discriminate].
  destruct (float_lt _ _); intros [= <- <-]; simpl; eauto 10.
Qed.

Lemma get_orientation_identity (gene : Q) :
  (0 < gene)%Q -> (gene <= 1 # 6)%Q -> get_orientation gene = 1.
Proof.
  intros Hpos Hle. unfold get_orientation.
  assert (Hup : Qceiling (6 * gene) <= 1).
  { assert (Hq : (6 * gene <= 1)%Q) by lra.
    apply Qceiling_resp_le in Hq. exact Hq. }
  assert (Hlow : 0 < Qceiling (6 * gene)).
  { pose proof (Qle_ceiling (6 * gene)) as Hc.
    assert (Hq : (inject_Z 0 < inject_Z (Qceiling (6 * gene)))%Q).
    { change (inject_Z 0) with 0%Q. lra. }
    now rewrite <- Zlt_Qlt in Hq. }
  lia.
Qed.

End Fitness.

(** ** The decoder *)

Section Decoder.

(** One turn of the loop of [decode] that goes through. *)
Lemma decode_body_runs (n : nat) (solution : list Q) (orders : list nat)
    (i k : nat) (w : World) (item size : PyItem) (gene : Q) :
  items w !! i = Some item ->
  solution !! (n + i)%nat = Some gene ->
  get_size item (get_orientation gene) = OK size ->
  orders !! i = Some k ->
  (k < length (items w))%nat ->
  decode_body n solution orders i w
  = (OK tt, on_problem (Problem.set_items (<[k := size]> (items w))) w).
Proof.
  intros Hitem Hgene Hsize Hk Hlt.
  unfold decode_body, bind, gets, lift, list_get, items_set.
  rewrite Hitem, Hgene, Hsize, Hk.
  destruct (decide (k < length (items w))%nat); [reflexivity | contradiction].
Qed.

End Decoder.

(** C9. When [evaluate] returns, [self.loads] holds the load of each
    bin and the fitness is [used_bins + min(loads) / (binX*binY*binZ)].
    With bin size (10,10,10), two items (10,10,5), orientation genes that
    select orientation 1 and any two priority genes, [evaluate] returns
    2.0 with [used_bins = 1] and [loads = [1000]]. *)
Theorem evaluate_fitness :
  (forall (solution : list Q) (w w' : World) (f : PyFloat),
     evaluate solution w = (OK f, w') ->
     let lds := map Bin.load (bins (self w')) in
     let vol := volume (bin_size (self w')) in
     loads (self w') = Some lds /\
     exists m, m ∈ lds /\ (forall x, x ∈ lds -> m <= x) /\
       f = int_add_float (used_bins (self w')) (int_truediv m vol) /\
       (vol <> 0 ->
        exists q, f = Fin q /\
          (q == inject_Z (used_bins (self w')) + inject_Z m / inject_Z vol)%Q))
  /\
  (forall p0 p1 o0 o1 : Q,
     (0 < o0)%Q /\ (o0 <= 1 # 6)%Q -> (0 < o1)%Q /\ (o1 <= 1 # 6)%Q ->
     let p := Problem.init (10, 10, 10) 1 2 1000 [(10, 10, 5); (10, 10, 5)] in
     exists w',
       evaluate [p0; p1; o0; o1] (fresh p) = (OK (Fin 2), w') /\
       used_bins (self w') = 1 /\ loads (self w') = Some [1000]).
Proof.
  split.
  - intros solution w w' f. unfold evaluate, bind.
    destruct (decode solution w) as [[[]|e] w1]; [|discriminate].
    destruct (pack w1) as [[[]|e] w2]; [|discriminate].
    intros Hs. apply score_spec in Hs as (Hb & Hu & Hsz & Hl & m & Hm & Hf).
    cbv zeta. rewrite Hb, Hu, Hsz. split; [exact Hl|].
    exists m. destruct (np_min_spec _ _ Hm) as [Hin Hall].
    split; [exact Hin|]. split; [exact Hall|]. split; [exact Hf|].
    intros Hvol. rewrite Hf. unfold int_truediv.
    destruct (Z.eqb_spec (volume (bin_size (self w2))) 0); [contradiction|].
    simpl. eexists. split; [reflexivity|]. now rewrite !Qred_correct.
  - intros p0 p1 o0 o1 [H0 H0'] [H1 H1'] p.
    assert (Hdec : decode [p0; p1; o0; o1] (fresh p) = (OK tt, fresh p)).
    { unfold decode, bind, gets, raise.
      change (total_items (self (fresh p))) with 2.
      change (negb (Z.of_nat (length [p0; p1; o0; o1]) =? 2 * 2)) with false.
      cbv iota.
      change (Z.to_nat 2) with 2%nat.
      change (argsort (take 2 [p0; p1; o0; o1]))
        with (if Qle_bool p0 p1 then [0%nat; 1%nat] else [1%nat; 0%nat]).
      change (seq 0 2) with [0%nat; 1%nat].
      unfold for_each, bind, ret.
      destruct (Qle_bool p0 p1);
        (erewrite decode_body_runs;
           [| reflexivity | reflexivity
            | rewrite get_orientation_identity by assumption; reflexivity
            | reflexivity | simpl; lia ]);
        (erewrite decode_body_runs;
           [| reflexivity | reflexivity
            | rewrite get_orientation_identity by assumption; reflexivity
            | reflexivity | simpl; lia ]);
        reflexivity. }
    unfold evaluate, bind. rewrite Hdec.
    eexists. split; [vm_compute; reflexivity|].
    split; vm_compute; reflexivity.
Qed.

Lemma evaluate_fitness_witness :
  let p := Problem.init (10, 10, 10) 1 2 1000 [(10, 10, 5); (10, 10, 5)] in
  exists w',
    evaluate [9#10; 1#10; 1#6; 1#10]%Q (fresh p) = (OK (Fin 2), w') /\
    used_bins (self w') = 1 /\ loads (self w') = Some [1000].
Proof.
  apply (proj2 evaluate_fitness (9#10) (1#10) (1#6) (1#10))%Q.
  - split; [reflexivity | discriminate].
  - split; [reflexivity | discriminate].
Defined.

Section DecodeLoop.

Lemma insert_index_perm (keys : list Q) (i : nat) (l : list nat) :
  insert_index keys i l ≡ₚ i :: l.
Proof.
  induction l as [|j l IH]; simpl; [reflexivity|].
  destruct (Qle_bool (key keys i) (key keys j)); [reflexivity|].
  rewrite IH. apply Permutation_swap.
Qed.

(** [argsort] returns a permutation of the indices. *)
Lemma argsort_perm (keys : list Q) : argsort keys ≡ₚ seq 0 (length keys).
Proof.
  unfold argsort. generalize (seq 0 (length keys)) as l.
  induction l as [|i l IH]; simpl; [reflexivity|].
  rewrite insert_index_perm. now rewrite IH.
Qed.

(** On a proper item [get_size] does not raise; it returns a tuple for
    the orientations 1..6 and [None] for any other. *)
Lemma get_size_proper (e : Extent) (o : Z) :
  exists size, get_size (Some e) o = OK size /\
    (1 <= o <= 6 -> exists e', size = Some e') /\
    (~ 1 <= o <= 6 -> size = None).
Proof.
  destruct e as [[x y] z]. unfold get_size.
  destruct (Z.eqb_spec o 1);
    [eexists; split; [reflexivity|]; split; [eauto | lia]|].
  destruct (Z.eqb_spec o 2);
    [eexists; split; [reflexivity|]; split; [eauto | lia]|].
  destruct (Z.eqb_spec o 3);
    [eexists; split; [reflexivity|]; split; [eauto | lia]|].
  destruct (Z.eqb_spec o 4);
    [eexists; split; [reflexivity|]; split; [eauto | lia]|].
  destruct (Z.eqb_spec o 5);
    [eexists; split; [reflexivity|]; split; [eauto | lia]|].
  destruct (Z.eqb_spec o 6);
    [eexists; split; [reflexivity|]; split; [eauto | lia]|].
  eexists; split; [reflexivity|]. split; [lia | reflexivity].
Qed.

Variables (n : nat) (solution : list Q) (orders : list nat).

Hypothesis solution_length : length solution = (2 * n)%nat.
Hypothesis orders_perm : orders ≡ₚ seq 0 n.

(** An item whose orientation is out of range is not written ahead of
    the position the loop is at. *)
Hypothesis out_of_range_behind :
  forall (i k : nat) (gene : Q),
    solution !! (n + i)%nat = Some gene ->
    ~ 1 <= get_orientation gene <= 6 ->
    orders !! i = Some k -> (k <= i)%nat.


End DecodeLoop.




(** ** [used_bins] along the packing loop *)

Section UsedBins.

(** Once a bin is selected the loop over the bins writes nothing. *)
Lemma bins_loop_selected (item : PyItem) (rest : list Bin.t) :
  forall (k : nat) (s : nat * EMS) (w : World),
    snd (bins_loop item rest k (Some s) w) = w.
Proof.
  induction rest as [|bin rest IH]; intros k s w; simpl; [reflexivity|].
  unfold bind, lift.
  destruct (Bin.choose_py bin item) as [[E|]|e]; simpl; auto.
Qed.

(** The loop over the bins adds at most one to [used_bins]. *)
Lemma bins_loop_used_bins (item : PyItem) (rest : list Bin.t) (k : nat)
    (w : World) :
  let w' := snd (bins_loop item rest k None w) in
  used_bins (self w') = used_bins (self w) \/
  used_bins (self w') = used_bins (self w) + 1.
Proof.
  destruct rest as [|bin rest]; simpl; [now left|].
  unfold bind, lift.
  destruct (Bin.choose_py bin item) as [[E|]|e]; simpl.
  - left. now rewrite bins_loop_selected.
  - right. unfold modify, gets, ret. simpl.
    destruct (bins_tail item _ _ _); reflexivity.
  - now left.
Qed.

(** Within [evaluate], [used_bins] never decreases as items are placed. *)
Lemma place_used_bins_monotone (item : PyItem) (w : World) :
  used_bins (self w) <= used_bins (self (snd (place item w))).
Proof.
  unfold place, bind, gets. simpl.
  pose proof (bins_loop_used_bins item (bins (self w)) 0 w) as Hloop.
  cbv zeta in Hloop.
  destruct (bins_loop item (bins (self w)) 0 None w) as [[[[j E]|]|e] w1];
    simpl in *; try lia.
  unfold lift, modify.
  destruct (list_get (bins (self w1)) j) as [bin|e]; simpl; [|lia].
  destruct (Bin.update_py bin item E) as [bin'|e]; simpl; lia.
Qed.

Lemma for_each_place_used_bins_monotone (its : list PyItem) :
  forall w : World,
    used_bins (self w) <= used_bins (self (snd (for_each place its w))).
Proof.
  induction its as [|item its IH]; intros w; simpl; [lia|].
  unfold bind.
  pose proof (place_used_bins_monotone item w) as Hplace.
  destruct (place item w) as [[[]|e] w1]; simpl in *; [|exact Hplace].
  specialize (IH w1). lia.
Qed.

(** What decides the opening of a bin is the first bin alone: a bin is
    opened exactly when [bins[0].choose(item)] finds no fit. *)
Lemma place_opens_bin_iff_first_rejects (it : Extent) (b0 : Bin.t)
    (rest : list Bin.t) (w : World) :
  bins (self w) = b0 :: rest ->
  let w' := snd (place (Some it) w) in
  (Bin.choose b0 it = None ->
   used_bins (self w') = used_bins (self w) + 1 /\
   length (bins (self w')) = S (length (bins (self w)))) /\
  (Bin.choose b0 it <> None ->
   used_bins (self w') = used_bins (self w) /\
   length (bins (self w')) = length (bins (self w))).
Proof.
  intros Hbins. unfold place, bind, gets. simpl. rewrite Hbins. simpl.
  unfold bind, lift. simpl.
  destruct (Bin.choose b0 it) as [E|] eqn:Hchoose.
  - split; [discriminate|]. intros _.
    pose proof (bins_loop_selected (Some it) rest 1 (0%nat, E) w) as Hsame.
    destruct (bins_loop (Some it) rest 1 (Some (0%nat, E)) w)
      as [[[[j E']|]|e] w1]; simpl in *; subst w1; rewrite ?Hbins; auto.
    unfold modify.
    destruct (list_get (b0 :: rest) j) as [bin|e]; simpl; rewrite ?Hbins; auto.
    destruct (Bin.update bin it E') as [bin'|e]; simpl; rewrite ?Hbins; auto.
    now rewrite length_insert.
  - split; [|congruence]. intros _.
    unfold modify, gets, ret. simpl.
    destruct (bins_tail (Some it) _ _ _) as [[j E']|e]; simpl;
      [|rewrite length_app, ?Hbins; simpl; split; lia].
    unfold list_get.
    destruct (_ !! j) as [bin|]; simpl;
      [|rewrite length_app, ?Hbins; simpl; split; lia].
    destruct (Bin.update bin it E') as [bin'|e]; simpl;
      rewrite ?length_insert, length_app, ?Hbins; simpl; split; lia.
Qed.

End UsedBins.

(** * Further properties of the code *)

(** ** Orientations *)

Section Orientations.

Lemma orientation_cases (o : Z) :
  1 <= o <= 6 -> o = 1 \/ o = 2 \/ o = 3 \/ o = 4 \/ o = 5 \/ o = 6.
Proof. lia. Qed.

Lemma Qceiling_bounds (x : Q) (k : Z) :
  Qceiling x = k <-> (inject_Z k - 1 < x)%Q /\ (x <= inject_Z k)%Q.
Proof.
  split.
  - intros <-. split.
    + pose proof (Qceiling_lt x) as H. unfold Z.sub in H.
      rewrite inject_Z_plus in H.
      change (inject_Z (- (1))) with (-1 # 1)%Q in H. lra.
    + apply Qle_ceiling.
  - intros [Hlow Hup].
    assert (H1 : Qceiling x <= k).
    { apply Qceiling_resp_le in Hup. now rewrite Qceiling_Z in Hup. }
    assert (H2 : k - 1 < Qceiling x).
    { rewrite Zlt_Qlt. pose proof (Qle_ceiling x) as H. unfold Z.sub.
      rewrite inject_Z_plus. change (inject_Z (- (1))) with (-1 # 1)%Q. lra. }
    lia.
Qed.

End Orientations.

(** [get_orientation] gives one of the six orientations exactly for the
    genes in the interval (0, 1]. *)
Theorem get_orientation_valid_iff (gene : Q) :
  1 <= get_orientation gene <= 6 <-> (0 < gene)%Q /\ (gene <= 1)%Q.
Proof.
  unfold get_orientation.
  destruct (proj1 (Qceiling_bounds (6 * gene) (Qceiling (6 * gene))) eq_refl)
    as [Hlow Hup].
  split.
  - intros [H1 H6].
    rewrite Zle_Qle in H1, H6.
    change (inject_Z 1) with 1%Q in H1. change (inject_Z 6) with 6%Q in H6.
    split; lra.
  - intros [Hpos Hle]. split.
    + assert (H : 0 < Qceiling (6 * gene)); [|lia].
      rewrite Zlt_Qlt. change (inject_Z 0) with 0%Q. lra.
    + assert (H : (6 * gene <= inject_Z 6)%Q).
      { change (inject_Z 6) with 6%Q. lra. }
      apply Qceiling_resp_le in H. now rewrite Qceiling_Z in H.
Qed.

(** For an orientation from 1 to 6, [get_size] returns the three extents
    of the item in some order. *)
Theorem get_size_permutes (x y z o : Z) :
  1 <= o <= 6 ->
  exists a b c,
    get_size (Some (x, y, z)) o = OK (Some (a, b, c)) /\
    [a; b; c] ≡ₚ [x; y; z].
Proof.
  intros Ho.
  destruct (orientation_cases o Ho) as [-> | [-> | [-> | [-> | [-> | ->]]]]];
    simpl; do 3 eexists; (split; [reflexivity|]).
  - reflexivity.
  - apply perm_skip, perm_swap.
  - apply perm_swap.
  - etransitivity; [apply perm_skip, perm_swap | apply perm_swap].
  - etransitivity; [apply perm_swap | apply perm_skip, perm_swap].
  - etransitivity; [apply perm_swap|].
    etransitivity; [apply perm_skip, perm_swap | apply perm_swap].
Qed.

Lemma get_size_permutes_witness :
  exists a b c,
    get_size (Some (3, 4, 5)) 4 = OK (Some (a, b, c)) /\
    [a; b; c] ≡ₚ [3; 4; 5].
Proof. apply get_size_permutes. lia. Defined.

(** The six orientations of an item whose three extents are pairwise
    distinct are pairwise distinct. *)
Theorem get_size_orientations_distinct (x y z o1 o2 : Z) :
  x <> y -> y <> z -> x <> z ->
  1 <= o1 <= 6 -> 1 <= o2 <= 6 ->
  o1 <> o2 ->
  get_size (Some (x, y, z)) o1 <> get_size (Some (x, y, z)) o2.
Proof.
  intros Hxy Hyz Hxz Ho1 Ho2.
  destruct (orientation_cases o1 Ho1) as [-> | [-> | [-> | [-> | [-> | ->]]]]];
    destruct (orientation_cases o2 Ho2) as [-> | [-> | [-> | [-> | [-> | ->]]]]];
    simpl; intros Hne H; try (now apply Hne); injection H; intros; congruence.
Qed.

Lemma get_size_orientations_distinct_witness :
  get_size (Some (3, 4, 5)) 2 <> get_size (Some (3, 4, 5)) 5.
Proof. apply get_size_orientations_distinct; lia. Defined.

(** ** What [decode] writes *)

Section DecodeFrame.

Lemma world_eta (w : World) :
  on_problem (Problem.set_items (items w)) w = w.
Proof. destruct w as [[] ?]. reflexivity. Qed.

(** A turn of the loop of [decode] that returns has read an entry, a
    gene and an index of the order, and has written one entry. *)
Lemma decode_body_returns (n : nat) (solution : list Q) (orders : list nat)
    (i : nat) (w w' : World) :
  decode_body n solution orders i w = (OK tt, w') ->
  exists item gene size k,
    items w !! i = Some item /\
    solution !! (n + i)%nat = Some gene /\
    get_size item (get_orientation gene) = OK size /\
    orders !! i = Some k /\
    (k < length (items w))%nat /\
    w' = on_problem (Problem.set_items (<[k := size]> (items w))) w.
Proof.
  unfold decode_body, bind, gets, lift, list_get, items_set.
  destruct (items w !! i) as [item|]; [|discriminate].
  destruct (solution !! (n + i)%nat) as [gene|]; [|discriminate].
  destruct (get_size item (get_orientation gene)) as [size|] eqn:Hsize;
    [|discriminate].
  destruct (orders !! i) as [k|]; [|discriminate].
  destruct (decide (k < length (items w))%nat); [|discriminate].
  intros [= <-]. exists item, gene, size, k. repeat split; auto.
Qed.

(** Whatever its outcome, a turn of the loop leaves a store that differs
    from the one it started on by at most the entry [orders[i]] of the
    item list. *)
Lemma decode_body_frame (n : nat) (solution : list Q) (orders : list nat)
    (i : nat) (w : World) :
  exists its',
    snd (decode_body n solution orders i w)
      = on_problem (Problem.set_items its') w /\
    length its' = length (items w) /\
    forall k, orders !! i <> Some k -> its' !! k = items w !! k.
Proof.
  unfold decode_body, bind, gets, lift, list_get, items_set.
  destruct (items w !! i) as [item|];
    [|exists (items w); rewrite world_eta; auto].
  destruct (solution !! (n + i)%nat) as [gene|];
    [|exists (items w); rewrite world_eta; auto].
  destruct (get_size item (get_orientation gene)) as [size|];
    [|exists (items w); rewrite world_eta; auto].
  destruct (orders !! i) as [k|];
    [|exists (items w); rewrite world_eta; auto].
  destruct (decide (k < length (items w))%nat);
    [|exists (items w); rewrite world_eta; auto].
  exists (<[k := size]> (items w)). split; [reflexivity|].
  split; [apply length_insert|].
  intros k' Hk'. apply list_lookup_insert_ne. congruence.
Qed.

Lemma decode_loop_frame (n : nat) (solution : list Q) (orders : list nat)
    (l : list nat) :
  forall w : World,
    exists its',
      snd (for_each (decode_body n solution orders) l w)
        = on_problem (Problem.set_items its') w /\
      length its' = length (items w) /\
      forall k, (forall i, i ∈ l -> orders !! i <> Some k) ->
                its' !! k = items w !! k.
Proof.
  induction l as [|i l IH]; intros w; simpl.
  - exists (items w). rewrite world_eta. auto.
  - unfold bind.
    destruct (decode_body_frame n solution orders i w) as (its1 & Hw1 & Hlen1 & Hk1).
    destruct (decode_body n solution orders i w) as [[[]|e] w1]; simpl in Hw1.
    + destruct (IH w1) as (its2 & Hw2 & Hlen2 & Hk2).
      exists its2. subst w1. split; [exact Hw2|].
      split; [now rewrite Hlen2|].
      intros k Hk. rewrite Hk2.
      * apply Hk1, Hk, list_elem_of_here.
      * intros i' Hi'. apply Hk. now apply list_elem_of_further.
    + exists its1. simpl. split; [exact Hw1|]. split; [exact Hlen1|].
      intros k Hk. apply Hk1, Hk, list_elem_of_here.
Qed.

(** A loop that returns has found an entry of the item list at each of
    its positions. *)
Lemma decode_loop_returns_bound (n : nat) (solution : list Q)
    (orders : list nat) (m : nat) :
  forall (j : nat) (w w' : World),
    for_each (decode_body n solution orders) (seq j m) w = (OK tt, w') ->
    (0 < m)%nat -> (j + m <= length (items w))%nat.
Proof.
  induction m as [|m IH]; intros j w w' Hrun Hm; [lia|].
  simpl in Hrun. unfold bind in Hrun.
  destruct (decode_body n solution orders j w) as [[[]|e] w1] eqn:Hbody;
    [|discriminate].
  apply decode_body_returns in Hbody
    as (item & gene & size & k & Hitem & _ & _ & _ & _ & ->).
  apply lookup_lt_Some in Hitem.
  destruct m as [|m]; [lia|].
  specialize (IH (S j) _ w' Hrun ltac:(lia)).
  change (items (on_problem _ w)) with (<[k := size]> (items w)) in IH.
  rewrite length_insert in IH. lia.
Qed.

End DecodeFrame.

Lemma decode_frame (solution : list Q) (w : World) :
  exists its',
    snd (decode solution w) = on_problem (Problem.set_items its') w /\
    length its' = length (items w).
Proof.
  unfold decode, bind, gets, raise.
  destruct (negb _).
  - exists (items w). simpl. rewrite world_eta. auto.
  - destruct (decode_loop_frame (Z.to_nat (total_items (self w))) solution
                (argsort (take (Z.to_nat (total_items (self w))) solution))
                (seq 0 (Z.to_nat (total_items (self w)))) w)
      as (its' & Hw & Hlen & _).
    exists its'. auto.
Qed.

(** Whether it returns or raises, [decode] leaves the engine, its bins
    and every field of the problem record but the item list as they
    were, and the item list keeps its length. *)
Theorem decode_only_rewrites_items (solution : list Q) (w : World) :
  exists its',
    snd (decode solution w) = on_problem (Problem.set_items its') w /\
    length its' = length (items w).
Proof. apply decode_frame. Qed.

(** [decode] returns only on a solution of length [2 * total_items] and
    an item list of at least [total_items] entries. *)
Theorem decode_returns_needs_items (solution : list Q) (w w' : World) :
  decode solution w = (OK tt, w') ->
  Z.of_nat (length solution) = 2 * total_items (self w) /\
  (Z.to_nat (total_items (self w)) <= length (items w))%nat.
Proof.
  unfold decode, bind, gets, raise.
  destruct (Z.eqb_spec (Z.of_nat (length solution)) (2 * total_items (self w)))
    as [Hlen|Hlen]; simpl; [|discriminate].
  intros Hrun. split; [exact Hlen|].
  destruct (Z.to_nat (total_items (self w))) as [|m] eqn:Hn; [lia|].
  apply decode_loop_returns_bound in Hrun; lia.
Qed.

Lemma decode_returns_needs_items_witness :
  let w := fresh (Problem.init (10, 10, 10) 1 2 9 [(1, 1, 1); (2, 2, 2)]) in
  Z.of_nat (length [1#10; 2#10; 1#2; 1#3]%Q) = 2 * total_items (self w) /\
  (Z.to_nat (total_items (self w)) <= length (items w))%nat.
Proof.
  cbv zeta.
  eapply (decode_returns_needs_items [1#10; 2#10; 1#2; 1#3]%Q).
  vm_compute. reflexivity.
Defined.

(** ** [decode] on priorities that are already in order *)

Section DecodeInOrder.

(** Keys in ascending order are sorted by the identity. *)
Lemma insert_sorted_run (keys : list Q) (m : nat) :
  forall j : nat,
    (forall i, (j <= i)%nat -> (S i < j + m)%nat ->
               (key keys i <= key keys (S i))%Q) ->
    foldr (insert_index keys) [] (seq j m) = seq j m.
Proof.
  induction m as [|m IH]; intros j Hsorted; [reflexivity|].
  simpl. rewrite IH by (intros i Hi Hi'; apply Hsorted; lia).
  destruct m as [|m]; [reflexivity|]. simpl.
  assert (Hle : (key keys j <= key keys (S j))%Q) by (apply Hsorted; lia).
  apply Qle_bool_iff in Hle. now rewrite Hle.
Qed.

Lemma argsort_sorted (keys : list Q) :
  (forall i, (S i < length keys)%nat -> (key keys i <= key keys (S i))%Q) ->
  argsort keys = seq 0 (length keys).
Proof.
  intros Hsorted. apply insert_sorted_run.
  intros i _ Hi. apply Hsorted. lia.
Qed.

Variables (n : nat) (solution : list Q).

Hypothesis solution_length : length solution = (2 * n)%nat.


End DecodeInOrder.

Section ArgsortContract.

Local Abbreviation by_key keys :=
  (fun a b : nat => (key keys a <= key keys b)%Q).










End ArgsortContract.



(** ** One turn of the packing loop *)

Section Place.

Implicit Types (it : Extent) (item : PyItem) (b : Bin.t) (w : World).

Lemma choose_member b it (E : EMS) :
  Bin.choose b it = Some E -> E ∈ Bin.EMSs b.
Proof.
  unfold Bin.choose. intros H.
  pose proof (choose_loop_spec (Bin.size b) it (Bin.EMSs b) (-1) None eq_refl) as Hs.
  rewrite H in Hs. destruct Hs as (_ & [Hin|Hin] & _); [exact Hin | discriminate].
Qed.

Lemma update_member b it (E : EMS) :
  E ∈ Bin.EMSs b ->
  exists b', Bin.update b it E = OK b' /\
    Bin.size b' = Bin.size b /\
    Bin.load b' = Bin.load b + volume it.
Proof.
  intros HE. destruct (list_remove_member E (Bin.EMSs b) HE) as (l1 & l2 & _ & Hrem).
  unfold Bin.update. rewrite Hrem. eexists. split; [reflexivity|].
  split; reflexivity.
Qed.

(** On a proper item the scan of the remaining bins does not raise, and
    it ends on the last bin that offers a fit, or on the selection it
    started from when no bin does. *)
Lemma bins_tail_last_fit it (rest : list Bin.t) :
  forall (k : nat) (sel : nat * EMS),
    exists j E,
      bins_tail (Some it) rest k sel = OK (j, E) /\
      (((j, E) = sel /\ forall b, b ∈ rest -> Bin.choose b it = None) \/
       (exists idx b,
          rest !! idx = Some b /\ j = (k + idx)%nat /\
          Bin.choose b it = Some E /\
          forall idx' b', (idx < idx')%nat -> rest !! idx' = Some b' ->
                          Bin.choose b' it = None)).
Proof.
  induction rest as [|b rest IH]; intros k sel; simpl.
  - destruct sel as [j E]. exists j, E. split; [reflexivity|]. left.
    split; [reflexivity|]. intros b Hb. inversion Hb.
  - destruct (Bin.choose b it) as [E0|] eqn:Hchoose.
    + destruct (IH (S k) (k, E0)) as (j & E & Hrun & [[Hsel Hnone]|Hfound]).
      * exists j, E. split; [exact Hrun|]. right.
        injection Hsel as -> ->. exists 0%nat, b.
        split; [reflexivity|]. split; [lia|]. split; [exact Hchoose|].
        intros [|idx'] b' Hlt Hb'; [lia|]. simpl in Hb'.
        apply Hnone. eapply list_elem_of_lookup_2, Hb'.
      * destruct Hfound as (idx & b1 & Hb1 & -> & Hc & Hlater).
        exists (S k + idx)%nat, E. split; [exact Hrun|]. right.
        exists (S idx), b1. split; [exact Hb1|]. split; [lia|].
        split; [exact Hc|].
        intros [|idx'] b' Hlt Hb'; [lia|]. simpl in Hb'.
        apply (Hlater idx' b'); [lia | exact Hb'].
    + destruct (IH (S k) sel) as (j & E & Hrun & [[Hsel Hnone]|Hfound]).
      * exists j, E. split; [exact Hrun|]. left. split; [exact Hsel|].
        intros b' Hb'. apply elem_of_cons in Hb' as [->|Hb']; auto.
      * destruct Hfound as (idx & b1 & Hb1 & -> & Hc & Hlater).
        exists (S k + idx)%nat, E. split; [exact Hrun|]. right.
        exists (S idx), b1. split; [exact Hb1|]. split; [lia|].
        split; [exact Hc|].
        intros [|idx'] b' Hlt Hb'; [lia|]. simpl in Hb'.
        apply (Hlater idx' b'); [lia | exact Hb'].
Qed.

(** On [None] the scan raises as soon as it meets a bin that has an
    EMS. *)
Lemma bins_tail_None_raises (rest : list Bin.t) :
  forall (k : nat) (sel : nat * EMS),
    (exists b, b ∈ rest /\ Bin.EMSs b <> []) ->
    bins_tail None rest k sel = Raise TypeError.
Proof.
  induction rest as [|b rest IH]; intros k sel (b1 & Hb1 & Hne).
  - inversion Hb1.
  - simpl. destruct (Bin.EMSs b) as [|E l] eqn:HE; [|reflexivity].
    apply IH. exists b1. split; [|exact Hne].
    apply elem_of_cons in Hb1 as [->|Hb1]; [congruence | exact Hb1].
Qed.

(** The loop over the bins once a bin is selected. *)
Lemma bins_loop_Some item (rest : list Bin.t) :
  forall (k : nat) (s : nat * EMS) w,
    bins_loop item rest k (Some s) w =
    (match bins_tail item rest k s with
     | OK sel => OK (Some sel)
     | Raise e => Raise e
     end, w).
Proof.
  induction rest as [|bin rest IH]; intros k s w; simpl.
  - reflexivity.
  - unfold bind, lift.
    destruct (Bin.choose_py bin item) as [[E|]|e]; simpl; auto.
Qed.

(** The store after the code has opened a bin. *)
Lemma bins_loop_None item b (rest : list Bin.t) (k : nat) w :
  bins_loop item (b :: rest) k None w =
  match Bin.choose_py b item with
  | Raise e => (Raise e, w)
  | OK (Some E) => bins_loop item rest (S k) (Some (k, E)) w
  | OK None =>
      let fresh := Bin.init (bin_size (self w)) in
      let w1 :=
        on_self (fun e => set_bins (bins e ++ [fresh]) e)
          (on_self (fun e => set_used_bins (used_bins e + 1) e) w) in
      (match bins_tail item (rest ++ [fresh]) (S k)
               ((length (bins (self w) ++ [fresh]) - 1)%nat,
                ((0, 0, 0), bin_size (self w))) with
       | OK sel => OK (Some sel)
       | Raise e => Raise e
       end, w1)
  end.
Proof.
  simpl. unfold bind, lift, modify, gets, ret.
  destruct (Bin.choose_py b item) as [[E|]|e]; simpl; try reflexivity.
  destruct (bins_tail item _ _ _); reflexivity.
Qed.

End Place.

Section PlaceProper.

Implicit Types (it : Extent) (b : Bin.t) (w : World).

(** [place] when the first bin offers a fit: no bin is opened and the
    item goes to the last bin that offers a fit. *)
Lemma place_first_fits it w b0 (rest : list Bin.t) (E0 : EMS) :
  bins (self w) = b0 :: rest ->
  Bin.choose b0 it = Some E0 ->
  exists j b E b',
    (b0 :: rest) !! j = Some b /\
    Bin.choose b it = Some E /\
    (forall j' b'', (j < j')%nat -> (b0 :: rest) !! j' = Some b'' ->
                    Bin.choose b'' it = None) /\
    Bin.update b it E = OK b' /\
    place (Some it) w
    = (OK tt, on_self (set_bins (<[j := b']> (b0 :: rest))) w).
Proof.
  intros Hbins Hc0.
  destruct (bins_tail_last_fit it rest 1 (0%nat, E0)) as (j & E & Hrun & Hcase).
  assert (Hsel : exists b, (b0 :: rest) !! j = Some b /\ Bin.choose b it = Some E /\
            forall j' b'', (j < j')%nat -> (b0 :: rest) !! j' = Some b'' ->
                           Bin.choose b'' it = None).
  { destruct Hcase as [[Hsel Hnone]|(idx & b & Hb & -> & Hc & Hlater)].
    - injection Hsel as -> ->. exists b0. split; [reflexivity|].
      split; [exact Hc0|]. intros [|j'] b'' Hlt Hb''; [lia|].
      apply Hnone. eapply list_elem_of_lookup_2, Hb''.
    - exists b. split; [exact Hb|]. split; [exact Hc|].
      intros [|j'] b'' Hlt Hb''; [lia|].
      apply (Hlater j' b''); [lia | exact Hb'']. }
  destruct Hsel as (b & Hb & Hc & Hlater).
  destruct (update_member b it E (choose_member b it E Hc)) as (b' & Hup & _).
  exists j, b, E, b'. repeat split; auto.
  unfold place, bind, gets. simpl. rewrite Hbins, bins_loop_None. simpl.
  rewrite Hc0, bins_loop_Some, Hrun. simpl. rewrite Hbins.
  unfold lift, list_get. rewrite Hb. simpl. rewrite Hup. reflexivity.
Qed.

(** [place] when the first bin offers no fit: a bin is opened, and the
    item goes to the last bin, the new one included, that offers a fit;
    when none does, it goes to the new bin all the same. *)
Lemma place_first_rejects it w b0 (rest : list Bin.t) :
  bins (self w) = b0 :: rest ->
  Bin.choose b0 it = None ->
  let fresh := Bin.init (bin_size (self w)) in
  let bs1 := (b0 :: rest) ++ [fresh] in
  exists j b E b',
    bs1 !! j = Some b /\
    (Bin.choose b it = Some E \/
     ((forall b'', b'' ∈ bs1 -> Bin.choose b'' it = None) /\
      j = S (length rest) /\ b = fresh /\
      E = ((0, 0, 0), bin_size (self w)))) /\
    (forall j' b'', (j < j')%nat -> bs1 !! j' = Some b'' ->
                    Bin.choose b'' it = None) /\
    Bin.update b it E = OK b' /\
    place (Some it) w
    = (OK tt,
       on_self (set_bins (<[j := b']> bs1))
         (on_self (fun e => set_bins (bins e ++ [fresh]) e)
            (on_self (fun e => set_used_bins (used_bins e + 1) e) w))).
Proof.
  intros Hbins Hc0 fresh bs1.
  destruct (bins_tail_last_fit it (rest ++ [fresh]) 1
              (S (length rest), ((0, 0, 0), bin_size (self w))))
    as (j & E & Hrun & Hcase).
  assert (Hsel : exists b, bs1 !! j = Some b /\
            (Bin.choose b it = Some E \/
             ((forall b'', b'' ∈ bs1 -> Bin.choose b'' it = None) /\
              j = S (length rest) /\ b = fresh /\
              E = ((0, 0, 0), bin_size (self w)))) /\
            (forall j' b'', (j < j')%nat -> bs1 !! j' = Some b'' ->
                            Bin.choose b'' it = None) /\
            E ∈ Bin.EMSs b).
  { destruct Hcase as [[Hsel Hnone]|(idx & b & Hb & -> & Hc & Hlater)].
    - injection Hsel as -> ->. exists fresh. split.
      { unfold bs1. change (b0 :: rest) with ([b0] ++ rest).
        rewrite <- app_assoc. simpl.
        rewrite lookup_app_r by lia. now rewrite Nat.sub_diag. }
      split.
      { right. repeat split; auto. intros b'' Hb''.
        unfold bs1 in Hb''. simpl in Hb''.
        apply elem_of_cons in Hb'' as [->|Hb'']; auto. }
      split.
      { intros j' b'' Hlt Hb''. apply lookup_lt_Some in Hb''.
        unfold bs1 in Hb''. rewrite length_app in Hb''. simpl in Hb''. lia. }
      apply list_elem_of_here.
    - exists b. split; [exact Hb|]. split; [now left|]. split.
      + intros [|j'] b'' Hlt Hb''; [lia|].
        apply (Hlater j' b''); [lia | exact Hb''].
      + apply (choose_member b it E Hc). }
  destruct Hsel as (b & Hb & Hc & Hlater & Hmem).
  destruct (update_member b it E Hmem) as (b' & Hup & _).
  exists j, b, E, b'. repeat split; auto.
  unfold place, bind, gets. simpl. rewrite Hbins, bins_loop_None. simpl.
  rewrite Hc0. simpl. rewrite Hbins. simpl.
  rewrite length_app. simpl.
  replace (length rest + 1 - 0)%nat with (S (length rest)) by lia.
  fold fresh. rewrite Hrun. simpl. rewrite Hbins.
  unfold lift, list_get. fold fresh. fold bs1. rewrite Hb. simpl.
  rewrite Hup. reflexivity.
Qed.

End PlaceProper.

Section PlaceEffects.

Implicit Types (it : Extent) (item : PyItem) (b : Bin.t) (w : World).

Lemma update_load b it (E : EMS) b' :
  Bin.update b it E = OK b' ->
  Bin.size b' = Bin.size b /\ Bin.load b' = Bin.load b + volume it.
Proof.
  unfold Bin.update. destruct (Bin.list_remove E (Bin.EMSs b)); [|discriminate].
  intros [= <-]. split; reflexivity.
Qed.

Lemma total_load_app (l1 l2 : list Bin.t) :
  total_load (l1 ++ l2) = total_load l1 + total_load l2.
Proof.
  unfold total_load. induction l1 as [|b l1 IH]; simpl; [reflexivity|].
  rewrite IH. lia.
Qed.

Lemma total_load_insert (bs : list Bin.t) (j : nat) b b' :
  bs !! j = Some b ->
  total_load (<[j := b']> bs) = total_load bs + (Bin.load b' - Bin.load b).
Proof.
  revert j. induction bs as [|b1 bs IH]; intros j Hj; [discriminate|].
  destruct j as [|j]; simpl in Hj.
  - injection Hj as ->. unfold total_load. simpl. lia.
  - specialize (IH j Hj). unfold total_load in *. simpl.
    change (foldr Z.add 0 (map Bin.load (<[j:=b']> bs)) =
            foldr Z.add 0 (map Bin.load bs) + (Bin.load b' - Bin.load b)) in IH.
    rewrite IH. lia.
Qed.

(** [place] on [None] raises, whatever the bins. *)
Lemma place_None_raises w :
  exists e, fst (place None w) = Raise e.
Proof.
  unfold place, bind, gets. simpl.
  destruct (bins (self w)) as [|b0 rest] eqn:Hbins.
  - simpl. eexists. reflexivity.
  - rewrite bins_loop_None. simpl.
    destruct (Bin.EMSs b0) as [|E l]; [|eexists; reflexivity].
    rewrite bins_tail_None_raises; [eexists; reflexivity|].
    exists (Bin.init (bin_size (self w))). split.
    + apply elem_of_app. right. apply list_elem_of_here.
    + discriminate.
Qed.

(** [place] on a proper item returns as soon as the engine has a bin. *)
Lemma place_proper_returns it w :
  bins (self w) <> [] -> fst (place (Some it) w) = OK tt.
Proof.
  destruct (bins (self w)) as [|b0 rest] eqn:Hbins; [congruence|]. intros _.
  destruct (Bin.choose b0 it) as [E0|] eqn:Hc0.
  - destruct (place_first_fits it w b0 rest E0 Hbins Hc0)
      as (j & b & E & b' & _ & _ & _ & _ & ->). reflexivity.
  - destruct (place_first_rejects it w b0 rest Hbins Hc0)
      as (j & b & E & b' & _ & _ & _ & _ & ->). reflexivity.
Qed.

(** Whatever its outcome, [place] leaves the problem record and the bin
    size alone, and either keeps the number of bins and [used_bins] or
    adds one to both. *)
Lemma place_counts item w :
  let w' := snd (place item w) in
  problem w' = problem w /\
  bin_size (self w') = bin_size (self w) /\
  ((used_bins (self w') = used_bins (self w) /\
    length (bins (self w')) = length (bins (self w))) \/
   (used_bins (self w') = used_bins (self w) + 1 /\
    length (bins (self w')) = S (length (bins (self w))))).
Proof.
  destruct (bins (self w)) as [|b0 rest] eqn:Hbins.
  - unfold place, bind, gets. simpl. rewrite Hbins. simpl.
    rewrite Hbins. auto.
  - destruct item as [it|].
    + destruct (Bin.choose b0 it) as [E0|] eqn:Hc0.
      * destruct (place_first_fits it w b0 rest E0 Hbins Hc0)
          as (j & b & E & b' & _ & _ & _ & _ & ->). simpl.
        rewrite length_insert. auto.
      * destruct (place_first_rejects it w b0 rest Hbins Hc0)
          as (j & b & E & b' & _ & _ & _ & _ & ->). simpl.
        rewrite length_insert. simpl. rewrite length_app. simpl.
        split; [reflexivity|]. split; [reflexivity|]. right.
        split; [reflexivity | lia].
    + unfold place, bind, gets. simpl. rewrite Hbins, bins_loop_None. simpl.
      destruct (Bin.EMSs b0) as [|E l]; simpl.
      * destruct (bins_tail None _ _ _) as [[j E]|e]; simpl.
        -- unfold lift, list_get, modify.
           destruct (_ !! j) as [bin|]; simpl; rewrite Hbins, length_app; simpl;
             (split; [reflexivity|]); (split; [reflexivity|]); right;
             (split; [reflexivity | lia]).
        -- rewrite Hbins, length_app. simpl.
           split; [reflexivity|]. split; [reflexivity|]. right.
           split; [reflexivity | lia].
      * rewrite Hbins. auto.
Qed.

(** A turn that returns has added the volume of its item to the loads. *)
Lemma place_returns_load item w w' :
  place item w = (OK tt, w') ->
  total_load (bins (self w')) = total_load (bins (self w)) + item_volume item.
Proof.
  intros Hrun. destruct item as [it|].
  - destruct (bins (self w)) as [|b0 rest] eqn:Hbins.
    + unfold place, bind, gets in Hrun. simpl in Hrun.
      rewrite Hbins in Hrun. discriminate.
    + destruct (Bin.choose b0 it) as [E0|] eqn:Hc0.
      * destruct (place_first_fits it w b0 rest E0 Hbins Hc0)
          as (j & b & E & b' & Hb & _ & _ & Hup & Hplace).
        rewrite Hplace in Hrun. injection Hrun as <-.
        change (total_load (<[j := b']> (b0 :: rest))
                = total_load (b0 :: rest) + volume it).
        rewrite (total_load_insert _ j b b' Hb).
        destruct (update_load b it E b' Hup) as [_ ->]. lia.
      * destruct (place_first_rejects it w b0 rest Hbins Hc0)
          as (j & b & E & b' & Hb & _ & _ & Hup & Hplace).
        rewrite Hplace in Hrun. injection Hrun as <-.
        change (total_load
                  (<[j := b']> ((b0 :: rest) ++ [Bin.init (bin_size (self w))]))
                = total_load (b0 :: rest) + volume it).
        rewrite (total_load_insert _ j b b' Hb), total_load_app.
        destruct (update_load b it E b' Hup) as [_ ->].
        change (total_load [Bin.init (bin_size (self w))]) with (0 + 0). lia.
  - destruct (place_None_raises w) as [e He]. rewrite Hrun in He. discriminate.
Qed.

End PlaceEffects.

(** ** The packing loop and the score *)

Section Pack.

Implicit Types (item : PyItem) (its : list PyItem) (w : World).

Lemma pack_counts its :
  forall w,
    let w' := snd (for_each place its w) in
    problem w' = problem w /\
    bin_size (self w') = bin_size (self w) /\
    exists d : nat,
      (d <= length its)%nat /\
      used_bins (self w') = used_bins (self w) + Z.of_nat d /\
      length (bins (self w')) = (length (bins (self w)) + d)%nat.
Proof.
  induction its as [|item its IH]; intros w; simpl.
  - split; [reflexivity|]. split; [reflexivity|]. exists 0%nat.
    split; [lia|]. split; [lia | lia].
  - unfold bind. pose proof (place_counts item w) as Hplace.
    cbv zeta in Hplace.
    destruct (place item w) as [[[]|e] w1]; simpl in Hplace |- *.
    + destruct Hplace as (Hp & Hs & Hcount).
      destruct (IH w1) as (Hp' & Hs' & d & Hd & Hu & Hl).
      split; [congruence|]. split; [congruence|].
      destruct Hcount as [[Hu1 Hl1]|[Hu1 Hl1]].
      * exists d. split; [lia|]. split; [lia | lia].
      * exists (S d). split; [lia|]. split; [lia | lia].
    + destruct Hplace as (Hp & Hs & Hcount).
      split; [exact Hp|]. split; [exact Hs|].
      destruct Hcount as [[Hu1 Hl1]|[Hu1 Hl1]].
      * exists 0%nat. split; [lia|]. split; [lia | lia].
      * exists 1%nat. split; [lia|]. split; [lia | lia].
Qed.

Lemma pack_returns_load its :
  forall w w',
    for_each place its w = (OK tt, w') ->
    total_load (bins (self w'))
    = total_load (bins (self w)) + foldr Z.add 0 (map item_volume its).
Proof.
  induction its as [|item its IH]; intros w w' Hrun; simpl in *.
  - injection Hrun as <-. lia.
  - unfold bind in Hrun.
    destruct (place item w) as [[[]|e] w1] eqn:Hplace; [|discriminate].
    rewrite (IH w1 w' Hrun), (place_returns_load item w w1 Hplace). lia.
Qed.

Lemma pack_proper_returns its :
  forall w,
    bins (self w) <> [] ->
    (forall item, item ∈ its -> item <> None) ->
    fst (for_each place its w) = OK tt.
Proof.
  induction its as [|item its IH]; intros w Hbins Hproper; simpl; [reflexivity|].
  unfold bind.
  destruct item as [it|];
    [|exfalso; apply (Hproper None); [apply list_elem_of_here | reflexivity]].
  pose proof (place_proper_returns it w Hbins) as Hret.
  pose proof (place_counts (Some it) w) as Hcount. cbv zeta in Hcount.
  destruct (place (Some it) w) as [r w1]. simpl in Hret, Hcount. subst r.
  apply IH.
  - destruct Hcount as (_ & _ & [[_ Hl]|[_ Hl]]); intros Hnil;
      rewrite Hnil in Hl; destruct (bins (self w)); simpl in Hl; congruence.
  - intros item Hitem. apply Hproper. now apply list_elem_of_further.
Qed.

Lemma pack_None_raises its :
  None ∈ its ->
  forall w, exists e, fst (for_each place its w) = Raise e.
Proof.
  induction its as [|item its IH]; intros Hin w; [inversion Hin|].
  simpl. unfold bind.
  destruct (place item w) as [[[]|e] w1] eqn:Hplace; [|eexists; reflexivity].
  apply elem_of_cons in Hin as [<-|Hin].
  - destruct (place_None_raises w) as [e He]. rewrite Hplace in He. discriminate.
  - apply IH. exact Hin.
Qed.

(** Whatever its outcome, [score] leaves the bins, [used_bins] and the
    item list alone. *)
Lemma score_frame w :
  let w' := snd (score w) in
  bins (self w') = bins (self w) /\
  used_bins (self w') = used_bins (self w) /\
  items w' = items w.
Proof.
  unfold score, bind, gets, modify, lift, ret. simpl.
  destruct (np_min _); simpl; [|auto].
  destruct (float_lt _ _); simpl; auto.
Qed.

End Pack.

(** ** [evaluate] as a whole *)

Section EvaluateStages.

Lemma pack_unfold (w : World) : pack w = for_each place (items w) w.
Proof. reflexivity. Qed.

Lemma decode_returns_loop (solution : list Q) (w w' : World) :
  decode solution w = (OK tt, w') ->
  let n := Z.to_nat (total_items (self w)) in
  Z.of_nat (length solution) = 2 * total_items (self w) /\
  for_each (decode_body n solution (argsort (take n solution))) (seq 0 n) w
  = (OK tt, w').
Proof.
  unfold decode, bind, gets, raise.
  destruct (Z.eqb_spec (Z.of_nat (length solution)) (2 * total_items (self w)))
    as [Hlen|Hlen]; simpl; [|discriminate].
  auto.
Qed.

Lemma get_size_out_of_range (item size : PyItem) (o : Z) :
  get_size item o = OK size -> ~ 1 <= o <= 6 -> size = None.
Proof.
  destruct item as [e|]; [|discriminate].
  destruct (get_size_proper e o) as (s & Hs & _ & Hout).
  rewrite Hs. intros [= <-]. exact Hout.
Qed.

(** A loop of [decode] that returns has left [None] wherever it wrote
    for an orientation out of range: no later turn writes there. *)
Lemma decode_loop_returns_None (n : nat) (solution : list Q)
    (orders : list nat) (m : nat) :
  NoDup orders ->
  forall (j : nat) (w w' : World),
    for_each (decode_body n solution orders) (seq j m) w = (OK tt, w') ->
    forall (i k : nat) (gene : Q),
      (j <= i < j + m)%nat ->
      solution !! (n + i)%nat = Some gene ->
      ~ 1 <= get_orientation gene <= 6 ->
      orders !! i = Some k ->
      items w' !! k = Some None.
Proof.
  intros Hnodup. induction m as [|m IH]; intros j w w' Hrun i k gene Hi Hgene Hbad Hk;
    [lia|].
  simpl in Hrun. unfold bind in Hrun.
  destruct (decode_body n solution orders j w) as [[[]|e] w1] eqn:Hbody;
    [|discriminate].
  destruct (decide (i = j)) as [->|Hij].
  - apply decode_body_returns in Hbody
      as (item & gene0 & size & k0 & _ & Hgene0 & Hsize & Hk0 & Hlt & ->).
    assert (gene0 = gene) as -> by congruence.
    assert (k0 = k) as -> by congruence.
    pose proof (get_size_out_of_range item size _ Hsize Hbad) as ->.
    destruct (decode_loop_frame n solution orders (seq (S j) m)
                (on_problem (Problem.set_items (<[k := None]> (items w))) w))
      as (its' & Hw' & _ & Hkeep).
    pose proof (eq_trans (eq_sym (f_equal snd Hrun)) Hw') as Heq.
    simpl in Heq. subst w'.
    change (its' !! k = Some None). rewrite Hkeep.
    + apply list_lookup_insert_eq. exact Hlt.
    + intros i' Hi' Hk'. apply elem_of_seq in Hi'.
      pose proof (NoDup_lookup orders _ _ _ Hnodup Hk' Hk). lia.
  - apply (IH (S j) w1 w' Hrun i k gene); auto. lia.
Qed.

End EvaluateStages.

(** An orientation gene outside (0, 1] makes [evaluate] raise: either
    [decode] fails, or the [None] it has left in the item list stops the
    packing loop. *)
Theorem evaluate_out_of_range_gene_raises (solution : list Q) (w : World)
    (i : nat) (gene : Q) :
  let n := Z.to_nat (total_items (self w)) in
  (i < n)%nat ->
  solution !! (n + i)%nat = Some gene ->
  ~ 1 <= get_orientation gene <= 6 ->
  exists e, fst (evaluate solution w) = Raise e.
Proof.
  intros n Hi Hgene Hbad. unfold evaluate, bind.
  destruct (decode solution w) as [[[]|e] w1] eqn:Hdec; [|eexists; reflexivity].
  destruct (decode_returns_loop solution w w1 Hdec) as [Hlen Hloop].
  fold n in Hloop.
  assert (Hperm : argsort (take n solution) ≡ₚ seq 0 n).
  { rewrite argsort_perm, length_take.
    replace (n `min` length solution)%nat with n by lia. reflexivity. }
  destruct (lookup_lt_is_Some_2 (argsort (take n solution)) i) as [k Hk].
  { rewrite Hperm, length_seq. exact Hi. }
  assert (Hnone : items w1 !! k = Some None).
  { apply (decode_loop_returns_None n solution (argsort (take n solution)) n)
      with (j := 0%nat) (w := w) (i := i) (gene := gene); auto.
    - rewrite Hperm. apply NoDup_seq.
    - lia. }
  rewrite pack_unfold.
  destruct (pack_None_raises (items w1)
              (list_elem_of_lookup_2 _ _ _ Hnone) w1) as [e He].
  destruct (for_each place (items w1) w1) as [[[]|e'] w2]; simpl in He;
    [discriminate | eexists; reflexivity].
Qed.

Lemma evaluate_out_of_range_gene_raises_witness :
  exists e,
    fst (evaluate [1#10; 2#10; 1#2; 0]%Q
           (fresh (Problem.init (10, 10, 10) 1 2 9 [(1, 1, 1); (2, 2, 2)])))
    = Raise e.
Proof.
  apply (evaluate_out_of_range_gene_raises [1#10; 2#10; 1#2; 0]%Q
           (fresh (Problem.init (10, 10, 10) 1 2 9 [(1, 1, 1); (2, 2, 2)]))
           1%nat 0%Q).
  - simpl. lia.
  - reflexivity.
  - vm_compute. intros [H _]. apply H. reflexivity.
Defined.

(** With at least one bin in the engine, the packing loop of
    [evaluate] returns exactly when the item list holds no [None]: on
    proper items neither [choose] nor [update] raises, and a [None]
    stops the loop. *)
Theorem pack_returns_iff (w : World) :
  bins (self w) <> [] ->
  (fst (pack w) = OK tt <->
   forall item, item ∈ items w -> item <> None).
Proof.
  intros Hbins. rewrite pack_unfold. split.
  - intros Hrun item Hin ->.
    destruct (pack_None_raises (items w) Hin w) as [e He].
    rewrite Hrun in He. discriminate.
  - intros Hproper. now apply pack_proper_returns.
Qed.

Lemma pack_returns_iff_witness :
  let w := fresh (Problem.init (10, 10, 10) 1 2 9 [(1, 1, 1); (2, 2, 2)]) in
  fst (pack w) = OK tt <-> forall item, item ∈ items w -> item <> None.
Proof. cbv zeta. apply pack_returns_iff. discriminate. Defined.

Section EvaluateCounts.

(** Whatever its outcome, [evaluate] opens some number [d] of bins, at
    most one for each entry of the item list. *)
Lemma evaluate_counts (solution : list Q) (w : World) :
  let w' := snd (evaluate solution w) in
  exists d : nat,
    (d <= length (items w))%nat /\
    used_bins (self w') = used_bins (self w) + Z.of_nat d /\
    length (bins (self w')) = (length (bins (self w)) + d)%nat.
Proof.
  unfold evaluate, bind.
  destruct (decode_frame solution w) as (its' & Hw1 & Hlen).
  destruct (decode solution w) as [[[]|e] w1]; simpl in Hw1; subst w1.
  - rewrite pack_unfold.
    set (w1 := on_problem (Problem.set_items its') w).
    pose proof (pack_counts (items w1) w1) as Hcount. cbv zeta in Hcount.
    destruct Hcount as (_ & _ & d & Hd & Hu & Hl).
    change (items w1) with its' in Hd. rewrite Hlen in Hd.
    change (self w1) with (self w) in Hu, Hl.
    destruct (for_each place (items w1) w1) as [[[]|e] w2]; simpl in Hu, Hl.
    + pose proof (score_frame w2) as Hscore. cbv zeta in Hscore.
      destruct Hscore as (Hb & Hused & _).
      destruct (score w2) as [r w3]. simpl in Hb, Hused |- *.
      exists d. rewrite Hb, Hused. auto.
    + simpl. exists d. auto.
  - simpl. exists 0%nat. split; [lia|]. split; lia.
Qed.

End EvaluateCounts.

(** [evaluate] keeps [used_bins] equal to the number of bins of the
    engine, whether it returns or raises. *)
Theorem evaluate_counts_bins (solution : list Q) (w : World) :
  counts_bins (self w) ->
  counts_bins (self (snd (evaluate solution w))).
Proof.
  unfold counts_bins. intros Hc.
  destruct (evaluate_counts solution w) as (d & _ & Hu & Hl).
  rewrite Hu, Hl, Hc. lia.
Qed.

Lemma evaluate_counts_bins_witness :
  counts_bins
    (self (snd (evaluate [1#10; 2#10; 3#10; 1#10; 1#10; 1#10]%Q
                  (fresh (Problem.init (10, 10, 10) 1 3 2000
                            [(10, 10, 10); (10, 10, 5); (10, 10, 5)]))))).
Proof. apply evaluate_counts_bins. reflexivity. Defined.

(** [evaluate] never lowers [used_bins] and never drops a bin, and it
    opens at most one bin for each entry of the item list. *)
Theorem evaluate_used_bins_bounds (solution : list Q) (w : World) :
  let w' := snd (evaluate solution w) in
  used_bins (self w) <= used_bins (self w')
    <= used_bins (self w) + Z.of_nat (length (items w)) /\
  (length (bins (self w)) <= length (bins (self w')))%nat.
Proof.
  destruct (evaluate_counts solution w) as (d & Hd & Hu & Hl).
  cbv zeta. rewrite Hu, Hl. lia.
Qed.

(** When [evaluate] returns, [self.loads] lists the load of each bin and
    their sum has grown by the volumes of the entries of the decoded
    item list: every item is counted once in exactly one bin. *)
Theorem evaluate_loads_sum (solution : list Q) (w w' : World) (f : PyFloat) :
  evaluate solution w = (OK f, w') ->
  loads (self w') = Some (map Bin.load (bins (self w'))) /\
  total_load (bins (self w'))
  = total_load (bins (self w)) + foldr Z.add 0 (map item_volume (items w')).
Proof.
  unfold evaluate, bind.
  destruct (decode_frame solution w) as (its' & Hw1 & _).
  destruct (decode solution w) as [[[]|e] w1]; [|discriminate].
  simpl in Hw1. rewrite pack_unfold.
  pose proof (pack_counts (items w1) w1) as Hcount. cbv zeta in Hcount.
  destruct Hcount as (Hp & _).
  destruct (for_each place (items w1) w1) as [[[]|e] w2] eqn:Hpack;
    [|discriminate].
  simpl in Hp. intros Hscore.
  pose proof (score_frame w2) as Hframe. cbv zeta in Hframe.
  rewrite Hscore in Hframe. simpl in Hframe. destruct Hframe as (Hb & _ & Hi).
  apply score_spec in Hscore as (_ & _ & _ & Hl & _).
  split; [now rewrite Hb|].
  rewrite Hb, Hi, (pack_returns_load _ _ _ Hpack).
  assert (Hself : bins (self w1) = bins (self w)) by (subst w1; reflexivity).
  assert (Hitems : items w2 = items w1) by (unfold items; now rewrite Hp).
  now rewrite Hself, Hitems.
Qed.

Lemma evaluate_loads_sum_witness :
  let w := fresh (Problem.init (10, 10, 10) 1 3 2000
                    [(10, 10, 10); (10, 10, 5); (10, 10, 5)]) in
  let r := evaluate [1#10; 2#10; 3#10; 1#10; 1#10; 1#10]%Q w in
  loads (self (snd r)) = Some (map Bin.load (bins (self (snd r)))) /\
  total_load (bins (self (snd r)))
  = total_load (bins (self w))
    + foldr Z.add 0 (map item_volume (items (snd r))).
Proof.
  cbv zeta.
  eapply (evaluate_loads_sum [1#10; 2#10; 3#10; 1#10; 1#10; 1#10]%Q).
  vm_compute. reflexivity.
Defined.

(** ** Which bin receives an item *)

(** With at least one bin in the engine, [place] returns on a proper
    item. The item goes to the last bin, in list order and counting the
    bin opened for it, whose [choose] offers a fit; when no bin offers
    one, it goes to the bin just opened. *)
Theorem place_last_fit (it : Extent) (w : World) (b0 : Bin.t)
    (rest : list Bin.t) :
  bins (self w) = b0 :: rest ->
  let fresh := Bin.init (bin_size (self w)) in
  let bs1 := match Bin.choose b0 it with
             | Some _ => b0 :: rest
             | None => (b0 :: rest) ++ [fresh]
             end in
  exists j b E b',
    bs1 !! j = Some b /\
    (Bin.choose b it = Some E \/
     ((forall b'', b'' ∈ bs1 -> Bin.choose b'' it = None) /\
      j = S (length rest) /\ b = fresh)) /\
    (forall j' b'', (j < j')%nat -> bs1 !! j' = Some b'' ->
                    Bin.choose b'' it = None) /\
    Bin.update b it E = OK b' /\
    fst (place (Some it) w) = OK tt /\
    bins (self (snd (place (Some it) w))) = <[j := b']> bs1.
Proof.
  intros Hbins fresh bs1. unfold bs1.
  destruct (Bin.choose b0 it) as [E0|] eqn:Hc0.
  - destruct (place_first_fits it w b0 rest E0 Hbins Hc0)
      as (j & b & E & b' & Hb & Hc & Hlater & Hup & ->).
    exists j, b, E, b'. repeat split; auto.
  - destruct (place_first_rejects it w b0 rest Hbins Hc0)
      as (j & b & E & b' & Hb & Hc & Hlater & Hup & ->).
    exists j, b, E, b'. repeat split; auto.
    destruct Hc as [Hc|(Hnone & Hj & Hfresh & _)]; [now left | right; auto].
Qed.

Lemma place_last_fit_witness :
  let w := fresh (Problem.init (10, 10, 10) 1 1 500 [(10, 10, 5)]) in
  exists j b E b',
    [Bin.init (10, 10, 10)] !! j = Some b /\
    (Bin.choose b (10, 10, 5) = Some E \/
     ((forall b'', b'' ∈ [Bin.init (10, 10, 10)] ->
                   Bin.choose b'' (10, 10, 5) = None) /\
      j = 1%nat /\ b = Bin.init (10, 10, 10))) /\
    (forall j' b'', (j < j')%nat ->
                    [Bin.init (10, 10, 10)] !! j' = Some b'' ->
                    Bin.choose b'' (10, 10, 5) = None) /\
    Bin.update b (10, 10, 5) E = OK b' /\
    fst (place (Some (10, 10, 5)) w) = OK tt /\
    bins (self (snd (place (Some (10, 10, 5)) w)))
    = <[j := b']> [Bin.init (10, 10, 10)].
Proof.
  cbv zeta.
  apply (place_last_fit (10, 10, 5)
           (fresh (Problem.init (10, 10, 10) 1 1 500 [(10, 10, 5)]))
           (Bin.init (10, 10, 10)) []).
  reflexivity.
Defined.

Lemma place_opens_bin_iff_first_rejects_witness :
  let w := fresh (Problem.init (10, 10, 10) 1 1 500 [(10, 10, 5)]) in
  let w' := snd (place (Some (11, 5, 5)) w) in
  (Bin.choose (Bin.init (10, 10, 10)) (11, 5, 5) = None ->
   used_bins (self w') = used_bins (self w) + 1 /\
   length (bins (self w')) = S (length (bins (self w)))) /\
  (Bin.choose (Bin.init (10, 10, 10)) (11, 5, 5) <> None ->
   used_bins (self w') = used_bins (self w) /\
   length (bins (self w')) = length (bins (self w))).
Proof.
  cbv zeta.
  apply (place_opens_bin_iff_first_rejects (11, 5, 5) (Bin.init (10, 10, 10)) []
           (fresh (Problem.init (10, 10, 10) 1 1 500 [(10, 10, 5)]))).
  reflexivity.
Defined.

(** An item that fits no bin of the engine, not even an empty one, is
    packed all the same: [place] raises nothing, opens a bin and loads
    it with the volume of the item. *)
Theorem place_oversized_item (it : Extent) (w : World) :
  bins (self w) <> [] ->
  (forall b, b ∈ bins (self w) -> Bin.choose b it = None) ->
  Bin.fit it ((0, 0, 0), bin_size (self w)) = false ->
  exists b',
    fst (place (Some it) w) = OK tt /\
    bins (self (snd (place (Some it) w))) = bins (self w) ++ [b'] /\
    Bin.load b' = volume it /\
    used_bins (self (snd (place (Some it) w))) = used_bins (self w) + 1.
Proof.
  intros Hne Hnone Hfit.
  destruct (bins (self w)) as [|b0 rest] eqn:Hbins; [congruence|].
  assert (Hfresh : Bin.choose (Bin.init (bin_size (self w))) it = None).
  { unfold Bin.choose. simpl. now rewrite Hfit. }
  assert (Hc0 : Bin.choose b0 it = None) by apply Hnone, list_elem_of_here.
  destruct (place_first_rejects it w b0 rest Hbins Hc0)
    as (j & b & E & b' & Hb & Hc & _ & Hup & ->).
  destruct Hc as [Hc|(_ & -> & -> & _)].
  - exfalso. apply list_elem_of_lookup_2 in Hb.
    apply elem_of_app in Hb as [Hb|Hb].
    + rewrite (Hnone b Hb) in Hc. discriminate.
    + apply list_elem_of_singleton in Hb as ->. congruence.
  - exists b'. split; [reflexivity|]. simpl.
    destruct (update_load _ _ _ _ Hup) as [_ Hload]. simpl in Hload.
    split; [|split; [lia | reflexivity]].
    change (b0 :: rest ++ [Bin.init (bin_size (self w))])
      with ((b0 :: rest) ++ [Bin.init (bin_size (self w))]).
    rewrite insert_app_r_alt by (simpl; lia).
    simpl. now rewrite Nat.sub_diag.
Qed.

Lemma place_oversized_item_witness :
  let w := fresh (Problem.init (10, 10, 10) 1 1 275 [(11, 5, 5)]) in
  exists b',
    fst (place (Some (11, 5, 5)) w) = OK tt /\
    bins (self (snd (place (Some (11, 5, 5)) w))) = bins (self w) ++ [b'] /\
    Bin.load b' = volume (11, 5, 5) /\
    used_bins (self (snd (place (Some (11, 5, 5)) w))) = used_bins (self w) + 1.
Proof.
  cbv zeta. apply place_oversized_item.
  - discriminate.
  - intros b Hb. apply list_elem_of_singleton in Hb as ->. reflexivity.
  - reflexivity.
Defined.

(** ** What [update] keeps and what it adds *)

Section UpdateEffect.

Implicit Types (it : Extent) (E Sel : EMS) (l cur cands : list EMS).

Lemma list_remove_returns Sel l (r : list EMS) :
  Bin.list_remove Sel l = OK r ->
  Sel ∈ l /\ length l = S (length r) /\
  (forall E, E ∈ r -> E ∈ l) /\
  (forall E, E ∈ l -> E <> Sel -> E ∈ r).
Proof.
  revert r. induction l as [|E0 l IH]; intros r; simpl; [discriminate|].
  destruct (decide (E0 = Sel)) as [->|Hne].
  - intros [= <-]. split; [apply list_elem_of_here|]. split; [reflexivity|].
    split.
    + intros E HE. now apply list_elem_of_further.
    + intros E HE HES. apply elem_of_cons in HE as [->|HE]; [congruence | exact HE].
  - destruct (Bin.list_remove Sel l) as [r0|e]; [|discriminate].
    intros [= <-]. destruct (IH r0 eq_refl) as (Hin & Hlen & Hsub & Hkeep).
    split; [now apply list_elem_of_further|]. split; [simpl; lia|]. split.
    + intros E HE. apply elem_of_cons in HE as [->|HE].
      * apply list_elem_of_here.
      * apply list_elem_of_further. now apply Hsub.
    + intros E HE HES. apply elem_of_cons in HE as [->|HE].
      * apply list_elem_of_here.
      * apply list_elem_of_further. now apply Hkeep.
Qed.

(** The loop over the candidates keeps what is there, and adds only
    candidates that are not degenerate. *)
Lemma append_valid_elements cands :
  forall cur,
    (forall E, E ∈ cur -> E ∈ Bin.append_valid cands cur) /\
    (forall E, E ∈ Bin.append_valid cands cur ->
               E ∈ cur \/ (E ∈ cands /\ Bin.degenerate E = false)) /\
    (length (Bin.append_valid cands cur) <= length cur + length cands)%nat.
Proof.
  induction cands as [|C cands IH]; intros cur; simpl.
  - split; [auto|]. split; [auto | lia].
  - destruct (Bin.isValid C cur) eqn:Hvalid.
    + destruct (IH (cur ++ [C])) as (Hkeep & Hnew & Hlen).
      split; [|split].
      * intros E HE. apply Hkeep, elem_of_app. now left.
      * intros E HE. destruct (Hnew E HE) as [Hcur|[Hc Hd]].
        -- apply elem_of_app in Hcur as [Hcur|Hcur]; [now left|].
           apply list_elem_of_singleton in Hcur as ->. right.
           split; [apply list_elem_of_here|].
           unfold Bin.isValid in Hvalid. apply andb_prop in Hvalid as [Hd _].
           now apply negb_true_iff in Hd.
        -- right. split; [now apply list_elem_of_further | exact Hd].
      * rewrite length_app in Hlen. simpl in Hlen. lia.
    + destruct (IH cur) as (Hkeep & Hnew & Hlen).
      split; [exact Hkeep|]. split; [|lia].
      intros E HE. destruct (Hnew E HE) as [Hcur|[Hc Hd]]; [now left|].
      right. split; [now apply list_elem_of_further | exact Hd].
Qed.

End UpdateEffect.

(** [update] returns exactly when the chosen EMS is one of the bin;
    otherwise [remove] raises [ValueError]. *)
Theorem update_returns_iff_member (b : Bin.t) (it : Extent) (Sel : EMS) :
  ((exists b', Bin.update b it Sel = OK b') <-> Sel ∈ Bin.EMSs b) /\
  (Sel ∉ Bin.EMSs b -> Bin.update b it Sel = Raise ValueError).
Proof.
  split; [split|].
  - intros [b' Hup]. unfold Bin.update in Hup.
    destruct (Bin.list_remove Sel (Bin.EMSs b)) as [r|e] eqn:Hrem; [|discriminate].
    now apply list_remove_returns in Hrem as [Hin _].
  - intros Hin. destruct (update_member b it Sel Hin) as (b' & Hup & _). eauto.
  - intros Hnin. unfold Bin.update. now rewrite list_remove_absent.
Qed.

(** When [update] returns, the size of the bin is unchanged, its load
    has grown by the volume of the item, every EMS other than the chosen
    one is still there, every EMS that is there was there before or is
    one of the three candidates and is not degenerate, and the bin has
    at most two EMSs more than before. *)
Theorem update_effect (b b' : Bin.t) (it : Extent) (Sel : EMS) :
  Bin.update b it Sel = OK b' ->
  Bin.size b' = Bin.size b /\
  Bin.load b' = Bin.load b + axis 0 it * axis 1 it * axis 2 it /\
  (forall E, E ∈ Bin.EMSs b -> E <> Sel -> E ∈ Bin.EMSs b') /\
  (forall E, E ∈ Bin.EMSs b' ->
     E ∈ Bin.EMSs b \/ (E ∈ Bin.new_EMSs it Sel /\ positive_extent E)) /\
  (length (Bin.EMSs b') <= length (Bin.EMSs b) + 2)%nat.
Proof.
  unfold Bin.update.
  destruct (Bin.list_remove Sel (Bin.EMSs b)) as [r|e] eqn:Hrem; [|discriminate].
  intros [= <-]. simpl.
  apply list_remove_returns in Hrem as (_ & Hlen & Hsub & Hkeep).
  destruct (append_valid_elements (Bin.new_EMSs it Sel) r) as (Hk & Hnew & Hl).
  split; [reflexivity|]. split; [reflexivity|]. split; [|split].
  - intros E HE HES. now apply Hk, Hkeep.
  - intros E HE. destruct (Hnew E HE) as [Hr|[Hc Hd]].
    + left. now apply Hsub.
    + right. split; [exact Hc | now apply not_degenerate_positive].
  - assert (length (Bin.new_EMSs it Sel) = 3%nat).
    { destruct Sel as [[[x1 y1] z1] [[x3 y3] z3]]. reflexivity. }
    lia.
Qed.

Lemma update_effect_witness :
  let b := Bin.init (10, 10, 10) in
  let Sel := ((0, 0, 0), (10, 10, 10)) in
  exists b',
    Bin.update b (2, 2, 10) Sel = OK b' /\
    Bin.size b' = Bin.size b /\
    Bin.load b' = Bin.load b + 2 * 2 * 10 /\
    (forall E, E ∈ Bin.EMSs b -> E <> Sel -> E ∈ Bin.EMSs b') /\
    (forall E, E ∈ Bin.EMSs b' ->
       E ∈ Bin.EMSs b \/ (E ∈ Bin.new_EMSs (2, 2, 10) Sel /\ positive_extent E)) /\
    (length (Bin.EMSs b') <= length (Bin.EMSs b) + 2)%nat.
Proof.
  cbv zeta. eexists. split; [reflexivity|].
  apply (update_effect (Bin.init (10, 10, 10)) _ (2, 2, 10)
           ((0, 0, 0), (10, 10, 10))).
  reflexivity.
Defined.

(** [update] keeps the shape of the EMSs of a bin: with an item of no
    negative extent, every EMS still reaches from a corner of no
    negative coordinate to the far corner of the bin. *)
Theorem update_keeps_bin_wf (b b' : Bin.t) (it : Extent) (Sel : EMS) :
  bin_wf b ->
  0 <= axis 0 it -> 0 <= axis 1 it -> 0 <= axis 2 it ->
  Bin.update b it Sel = OK b' ->
  bin_wf b'.
Proof.
  intros Hwf Hx Hy Hz Hup.
  assert (HS : Sel ∈ Bin.EMSs b).
  { unfold Bin.update in Hup.
    destruct (Bin.list_remove Sel (Bin.EMSs b)) as [r|e] eqn:Hrem; [|discriminate].
    now apply list_remove_returns in Hrem as [Hin _]. }
  unfold Bin.update in Hup.
  destruct (Bin.list_remove Sel (Bin.EMSs b)) as [r|e] eqn:Hrem; [|discriminate].
  injection Hup as <-. apply list_remove_returns in Hrem as (_ & _ & Hsub & _).
  intros E HE. simpl in HE |- *.
  destruct (append_valid_elements (Bin.new_EMSs it Sel) r) as (_ & Hnew & _).
  destruct (Hnew E HE) as [Hr|[Hc _]].
  - now apply Hwf, Hsub.
  - destruct (Hwf Sel HS) as [Hmax Hmin].
    destruct Sel as [[[x1 y1] z1] [[x3 y3] z3]], it as [[ix iy] iz].
    unfold Bin.new_EMSs in Hc. simpl in *.
    unfold corner_le in *. simpl in *.
    repeat (apply elem_of_cons in Hc as [->|Hc]); [| | |inversion Hc];
      simpl; (split; [exact Hmax | lia]).
Qed.

Lemma update_keeps_bin_wf_witness :
  bin_wf {| Bin.size := (10, 10, 10);
            Bin.EMSs := [((2, 0, 0), (10, 10, 10)); ((0, 2, 0), (10, 10, 10))];
            Bin.load := 40 |}.
Proof.
  apply (update_keeps_bin_wf (Bin.init (10, 10, 10)) _ (2, 2, 10)
           ((0, 0, 0), (10, 10, 10))).
  - intros E HE. apply list_elem_of_singleton in HE as ->.
    split; [reflexivity|]. unfold corner_le. simpl. lia.
  - simpl. lia.
  - simpl. lia.
  - simpl. lia.
  - reflexivity.
Defined.

(** In a bin whose EMSs have that shape, the EMS that [choose] returns
    holds the item inside the bin: on each axis the item starts at a
    coordinate that is not negative and ends within the bin size. *)
Theorem choose_inside_bin (b : Bin.t) (it : Extent) (E : EMS) :
  bin_wf b ->
  Bin.choose b it = Some E ->
  forall i, (i < 3)%nat ->
    0 <= axis i (fst E) /\ axis i (fst E) + axis i it <= axis i (Bin.size b).
Proof.
  intros Hwf Hc.
  pose proof (choose_loop_spec (Bin.size b) it (Bin.EMSs b) (-1) None eq_refl) as Hs.
  unfold Bin.choose in Hc. rewrite Hc in Hs.
  destruct Hs as (Hfit & [Hin|Hin] & _); [|discriminate].
  destruct (Hwf E Hin) as [Hmax (H0 & H1 & H2)].
  apply fit_true in Hfit as (F0 & F1 & F2). rewrite Hmax in F0, F1, F2.
  simpl in H0, H1, H2.
  apply axis_cases. repeat split; assumption.
Qed.

Lemma choose_inside_bin_witness :
  0 <= axis 2 (0, 0, 0) /\
  axis 2 (0, 0, 0) + axis 2 (10, 10, 5) <= axis 2 (10, 10, 10).
Proof.
  apply (choose_inside_bin (Bin.init (10, 10, 10)) (10, 10, 5)
           ((0, 0, 0), (10, 10, 10))).
  - intros E HE. apply list_elem_of_singleton in HE as ->.
    split; [reflexivity|]. unfold corner_le. simpl. lia.
  - reflexivity.
  - lia.
Defined.

(** ** The best state kept in the problem record *)

Section BestState.

Lemma float_lt_irrefl (a : PyFloat) : float_lt a a = false.
Proof.
  destruct a as [q| | |]; simpl; try reflexivity.
  apply negb_false_iff, Qle_bool_iff, Qle_refl.
Qed.

Lemma float_lt_asym (a b : PyFloat) :
  float_lt a b = true -> float_lt b a = false.
Proof.
  destruct a as [p| | |], b as [q| | |]; simpl; try discriminate; try reflexivity.
  intros H. apply negb_true_iff in H. apply negb_false_iff, Qle_bool_iff.
  destruct (Qlt_le_dec p q) as [Hlt|Hle].
  - now apply Qlt_le_weak.
  - apply Qle_bool_iff in Hle. congruence.
Qed.

(** What [score] writes into the problem record. *)
Lemma score_problem (w w' : World) (f : PyFloat) :
  score w = (OK f, w') ->
  problem w' =
  if float_lt f (Problem.best_fitness (problem w))
  then Problem.set_best (used_bins (self w)) f
         (Some (map Bin.load (bins (self w)))) (problem w)
  else problem w.
Proof.
  unfold score, bind, gets, modify, lift, ret. simpl.
  destruct (np_min (map Bin.load (bins (self w)))) as [m|e]; [|discriminate].
  simpl. destruct (float_lt _ _) eqn:Hlt; intros [= <- <-]; simpl.
  - now rewrite Hlt.
  - now rewrite Hlt.
Qed.

End BestState.

(** When [evaluate] returns a fitness below the best fitness of the
    problem record, the record takes the fitness, [used_bins] and the
    loads of this call; otherwise these three fields stay as they were.
    Either way the best fitness of the record does not go up. *)
Theorem evaluate_best_fitness (solution : list Q) (w w' : World) (f : PyFloat) :
  evaluate solution w = (OK f, w') ->
  let best := Problem.best_fitness (problem w) in
  (float_lt f best = true ->
   Problem.best_fitness (problem w') = f /\
   Problem.used_bins (problem w') = used_bins (self w') /\
   Problem.loads (problem w') = loads (self w')) /\
  (float_lt f best = false ->
   Problem.best_fitness (problem w') = best /\
   Problem.used_bins (problem w') = Problem.used_bins (problem w) /\
   Problem.loads (problem w') = Problem.loads (problem w)) /\
  float_lt best (Problem.best_fitness (problem w')) = false.
Proof.
  unfold evaluate, bind.
  destruct (decode_frame solution w) as (its' & Hw1 & _).
  destruct (decode solution w) as [[[]|e] w1]; [|discriminate].
  simpl in Hw1. rewrite pack_unfold.
  pose proof (pack_counts (items w1) w1) as Hcount. cbv zeta in Hcount.
  destruct Hcount as (Hp & _).
  destruct (for_each place (items w1) w1) as [[[]|e] w2]; [|discriminate].
  simpl in Hp. intros Hscore.
  pose proof (score_problem w2 w' f Hscore) as Hprob.
  apply score_spec in Hscore as (_ & Hu & _ & Hl & _).
  assert (Hbest : Problem.best_fitness (problem w2)
                  = Problem.best_fitness (problem w)).
  { rewrite Hp. subst w1. reflexivity. }
  assert (Hused : Problem.used_bins (problem w2) = Problem.used_bins (problem w)).
  { rewrite Hp. subst w1. reflexivity. }
  assert (Hloads : Problem.loads (problem w2) = Problem.loads (problem w)).
  { rewrite Hp. subst w1. reflexivity. }
  rewrite Hbest in Hprob. cbv zeta.
  destruct (float_lt f (Problem.best_fitness (problem w))) eqn:Hlt;
    rewrite Hprob; simpl.
  - split; [intros _; rewrite Hu, Hl; auto|].
    split; [discriminate|]. now apply float_lt_asym.
  - split; [discriminate|].
    split; [intros _; auto|]. rewrite Hbest. apply float_lt_irrefl.
Qed.

Lemma evaluate_best_fitness_witness :
  let w := fresh (Problem.init (10, 10, 10) 1 2 1000 [(10, 10, 5); (10, 10, 5)]) in
  let w' := snd (evaluate [1#10; 2#10; 1#6; 1#6]%Q w) in
  let best := Problem.best_fitness (problem w) in
  (float_lt (Fin 2) best = true ->
   Problem.best_fitness (problem w') = Fin 2 /\
   Problem.used_bins (problem w') = used_bins (self w') /\
   Problem.loads (problem w') = loads (self w')) /\
  (float_lt (Fin 2) best = false ->
   Problem.best_fitness (problem w') = best /\
   Problem.used_bins (problem w') = Problem.used_bins (problem w) /\
   Problem.loads (problem w') = Problem.loads (problem w)) /\
  float_lt best (Problem.best_fitness (problem w')) = false.
Proof.
  cbv zeta.
  apply (evaluate_best_fitness [1#10; 2#10; 1#6; 1#6]%Q).
  vm_compute. reflexivity.
Defined.

(** With no item at all ([total_items = 0], an empty item list and an
    empty solution) a fresh engine returns the fitness 1: one bin, of
    load 0. *)
Theorem evaluate_no_items (size : Extent) (nb ni tv : Z) :
  ni * nb = 0 ->
  volume size <> 0 ->
  exists w',
    evaluate [] (fresh (Problem.init size nb ni tv [])) = (OK (Fin 1), w') /\
    used_bins (self w') = 1 /\
    loads (self w') = Some [0] /\
    Problem.best_fitness (problem w') = Fin 1.
Proof.
  intros Hn Hvol.
  set (w0 := fresh (Problem.init size nb ni tv [])).
  assert (Hdec : decode [] w0 = (OK tt, w0)).
  { unfold decode, bind, gets, raise.
    change (total_items (self w0)) with (ni * nb). rewrite Hn. reflexivity. }
  unfold evaluate, bind. rewrite Hdec, pack_unfold.
  change (for_each place (items w0) w0) with (OK tt, w0).
  unfold score, bind, gets, modify, lift, ret.
  change (np_min (map Bin.load (bins (self w0)))) with (OK 0).
  cbv beta iota.
  change (bin_size (self (on_self (set_loads (Some (map Bin.load (bins (self w0))))) w0)))
    with size.
  unfold int_truediv.
  destruct (Z.eqb_spec (volume size) 0) as [|_]; [contradiction|].
  assert (Hq : Qred (inject_Z 0 / inject_Z (volume size)) = 0%Q).
  { change 0%Q with (Qred 0). apply Qred_complete.
    unfold Qdiv. apply Qmult_0_l. }
  rewrite Hq.
  eexists. split; [reflexivity|]. repeat split; reflexivity.
Qed.

Lemma evaluate_no_items_witness :
  exists w',
    evaluate [] (fresh (Problem.init (10, 10, 10) 1 0 0 [])) = (OK (Fin 1), w') /\
    used_bins (self w') = 1 /\
    loads (self w') = Some [0] /\
    Problem.best_fitness (problem w') = Fin 1.
Proof. apply evaluate_no_items; [reflexivity | discriminate]. Defined.

(** ** The generator of problem instances *)

Section GeneratorSteps.

Import Generator.

Implicit Types (p : Piece) (l its : list Piece) (bin : Extent).

Lemma pop_returns l p (r : list Piece) : pop l = OK (p, r) -> l = r ++ [p].
Proof.
  unfold pop. destruct (reverse l) as [|p0 r0] eqn:Hrev; [discriminate|].
  intros [= <- <-]. rewrite <- (reverse_involutive l), Hrev.
  apply reverse_cons.
Qed.

Lemma pop_snoc l p : pop (l ++ [p]) = OK (p, l).
Proof. unfold pop. now rewrite reverse_snoc, reverse_involutive. Qed.

Lemma pop_nonempty l :
  l <> [] -> exists p r, l = r ++ [p] /\ pop l = OK (p, r).
Proof.
  intros Hne. destruct (pop l) as [[p r]|e] eqn:Hpop.
  - exists p, r. split; [now apply pop_returns | reflexivity].
  - unfold pop in Hpop. destruct (reverse l) as [|p0 r0] eqn:Hrev;
      [|discriminate].
    exfalso. apply Hne. rewrite <- (reverse_involutive l), Hrev. reflexivity.
Qed.

Lemma insert_by_perm (key : Piece -> Z) p l : insert_by key p l ≡ₚ p :: l.
Proof.
  induction l as [|q l IH]; simpl; [reflexivity|].
  destruct (key p <=? key q); [reflexivity|].
  rewrite IH. apply Permutation_swap.
Qed.

(** The sort rearranges the list and nothing else. *)
Lemma sort_by_perm (key : Piece -> Z) l : sort_by key l ≡ₚ l.
Proof.
  unfold sort_by. induction l as [|p l IH]; simpl; [reflexivity|].
  rewrite insert_by_perm. now rewrite IH.
Qed.

Lemma pieces_volume_app l1 l2 :
  pieces_volume (l1 ++ l2) = pieces_volume l1 + pieces_volume l2.
Proof.
  unfold pieces_volume. induction l1 as [|p l1 IH]; simpl; [reflexivity|].
  rewrite IH. lia.
Qed.

Lemma pieces_volume_perm l1 l2 :
  l1 ≡ₚ l2 -> pieces_volume l1 = pieces_volume l2.
Proof.
  unfold pieces_volume.
  induction 1 as [|p l1 l2 _ IH|p q l|l1 l2 l3 _ IH1 _ IH2]; simpl; lia.
Qed.

Lemma piece_inside_volume bin p : piece_inside bin p -> 1 <= piece_volume p.
Proof.
  intros H. apply axis_cases in H as ((H0 & _) & (H1 & _) & (H2 & _)).
  unfold piece_volume. nia.
Qed.

(** Pieces of extents at least 1 are no more than their volumes add up
    to. *)
Lemma length_le_pieces_volume bin l :
  (forall p, p ∈ l -> piece_inside bin p) ->
  Z.of_nat (length l) <= pieces_volume l.
Proof.
  induction l as [|p l IH]; intros Hin; [unfold pieces_volume; simpl; lia|].
  assert (H1 : 1 <= piece_volume p).
  { apply (piece_inside_volume bin), Hin, list_elem_of_here. }
  assert (H2 : Z.of_nat (length l) <= pieces_volume l).
  { apply IH. intros q Hq. apply Hin. now apply list_elem_of_further. }
  unfold pieces_volume in *. simpl. lia.
Qed.

Lemma index_max_cases (item : Extent) :
  (index_max item = 0%nat \/ index_max item = 1%nat \/ index_max item = 2%nat)
  /\ axis 0 item <= axis (index_max item) item
  /\ axis 1 item <= axis (index_max item) item
  /\ axis 2 item <= axis (index_max item) item.
Proof.
  destruct item as [[a b] c]. unfold index_max.
  destruct (Z.eqb_spec a (Z.max a (Z.max b c)));
    [|destruct (Z.eqb_spec b (Z.max a (Z.max b c)))]; simpl;
    (split; [auto|lia]).
Qed.

(** The three goals left by a split along one axis. *)
Ltac split_case Hrest :=
  eexists _, _; split; [reflexivity|]; split; [|split];
  [ let p := fresh "p" in
    let Hp := fresh "Hp" in
    intros p Hp; rewrite sort_by_perm in Hp;
    apply elem_of_app in Hp as [Hp|Hp]; [now apply Hrest|];
    repeat (apply elem_of_cons in Hp as [->|Hp]); try (inversion Hp; fail);
    unfold piece_inside; apply axis_cases; simpl; lia
  | rewrite (pieces_volume_perm _ _ (sort_by_perm _ _));
    rewrite !pieces_volume_app; f_equal;
    unfold pieces_volume, piece_volume; simpl; ring
  | right; rewrite (sort_by_perm _ _), !length_app; simpl; lia ].

Variable rand : nat -> Z -> Z -> Z.

(** [randint(a, b)] returns a value between [a] and [b]. *)
Hypothesis rand_range : forall k a b, a <= b -> a <= rand k a b <= b.

(** One turn of the while loop on a list of pieces that lie inside the
    bin: it does not raise, the pieces it leaves lie inside the bin and
    have the same total volume, and there is at most one more of
    them. *)
Lemma split_body_keeps bin (k : nat) its :
  its <> [] ->
  (forall p, p ∈ its -> piece_inside bin p) ->
  exists k' its',
    split_body rand k its = OK (k', its') /\
    (forall p, p ∈ its' -> piece_inside bin p) /\
    pieces_volume its' = pieces_volume its /\
    (length its' = length its \/ length its' = S (length its)).
Proof.
  intros Hne Hin.
  destruct (pop_nonempty its Hne) as ([origin item] & rest & -> & Hpop).
  unfold split_body. rewrite Hpop.
  assert (Hlast : piece_inside bin (origin, item)).
  { apply Hin, elem_of_app. right. apply list_elem_of_here. }
  assert (Hrest : forall p, p ∈ rest -> piece_inside bin p).
  { intros p Hp. apply Hin, elem_of_app. now left. }
  cbv zeta.
  destruct (Z.eqb_spec (axis (index_max item) item) 1) as [H1|H1].
  - exists k, (rest ++ [(origin, item)]). auto.
  - apply axis_cases in Hlast
      as ((A0 & B0 & C0) & (A1 & B1 & C1) & (A2 & B2 & C2)).
    destruct (index_max_cases item) as (Hd & M0 & M1 & M2).
    destruct item as [[a b] c], origin as [[ox oy] oz], bin as [[bx by'] bz].
    simpl in A0, A1, A2, B0, B1, B2, C0, C1, C2.
    revert H1 M0 M1 M2.
    destruct Hd as [Hd|[Hd|Hd]]; rewrite Hd; simpl; intros H1 M0 M1 M2;
      unfold randint.
    + destruct (Z.ltb_spec (a - 1) 1) as [Hlt|_]; [lia|].
      pose proof (rand_range k 1 (a - 1) ltac:(lia)) as Hcut.
      split_case Hrest.
    + destruct (Z.ltb_spec (b - 1) 1) as [Hlt|_]; [lia|].
      pose proof (rand_range k 1 (b - 1) ltac:(lia)) as Hcut.
      split_case Hrest.
    + destruct (Z.ltb_spec (c - 1) 1) as [Hlt|_]; [lia|].
      pose proof (rand_range k 1 (c - 1) ltac:(lia)) as Hcut.
      split_case Hrest.
Qed.


(** A target above the total volume is never reached: the loop is not
    left, whatever the fuel. *)
Lemma split_loop_never_left bin (target : Z) (fuel : nat) :
  forall (k : nat) its,
    its <> [] ->
    (forall p, p ∈ its -> piece_inside bin p) ->
    pieces_volume its < target ->
    split_loop rand fuel target k its = None.
Proof.
  induction fuel as [|fuel IH]; intros k its Hne Hin Hvol; simpl;
    pose proof (length_le_pieces_volume bin its Hin) as Hlen;
    destruct (Z.ltb_spec (Z.of_nat (length its)) target) as [Hlt|Hge];
    try reflexivity;
    try (exfalso; apply (Z.lt_irrefl target);
         eapply Z.le_lt_trans; [exact Hge|];
         eapply Z.le_lt_trans; [exact Hlen | exact Hvol]).
  destruct (split_body_keeps bin k its Hne Hin)
    as (k' & its1 & -> & Hin1 & Hvol1 & Hlen1).
  apply IH; auto.
  - intros ->. destruct its; [congruence|]. simpl in Hlen1.
    destruct Hlen1; discriminate.
  - now rewrite Hvol1.
Qed.


End GeneratorSteps.




(** When [n_items + n_samples] exceeds the volume of the bin, the while
    loop of [generate] is never left: the pieces keep extents of at
    least 1, so there are never more of them than the volume of the
    bin. *)
Theorem generate_never_returns (rand : nat -> Z -> Z -> Z)
    (shuffle : list Generator.Piece -> list Generator.Piece)
    (g : Generator.t) :
  (forall k a b, a <= b -> a <= rand k a b <= b) ->
  1 <= axis 0 (Generator.bin_size g) /\
  1 <= axis 1 (Generator.bin_size g) /\
  1 <= axis 2 (Generator.bin_size g) ->
  10 <= Generator.n_items g <= 1000 ->
  axis 0 (Generator.bin_size g) * axis 1 (Generator.bin_size g)
    * axis 2 (Generator.bin_size g)
  < Generator.n_items g + Generator.n_samples g ->
  forall fuel, Generator.generate rand shuffle fuel g = None.
Proof.
  intros Hrand (Hb0 & Hb1 & Hb2) Hn Hvol fuel.
  unfold Generator.generate.
  destruct (Z.ltb_spec (Generator.n_items g) 10) as [|_]; [lia|].
  destruct (Z.gtb_spec (Generator.n_items g) 1000) as [|_]; [lia|].
  simpl orb. cbv iota.
  rewrite (split_loop_never_left rand Hrand (Generator.bin_size g)).
  - reflexivity.
  - discriminate.
  - intros p Hp. apply list_elem_of_singleton in Hp as ->.
    unfold piece_inside. apply axis_cases. simpl. lia.
  - unfold pieces_volume, Generator.piece_volume. simpl. lia.
Qed.

Lemma generate_never_returns_witness :
  Generator.generate (fun _ a _ => a) (fun l => l) 1000
    {| Generator.n_items := 10; Generator.seed := 0;
       Generator.bin_size := (2, 2, 2); Generator.items := [];
       Generator.volume := 8; Generator.n_samples := 1 |} = None.
Proof.
  apply generate_never_returns.
  - intros k a b Hab. lia.
  - simpl. lia.
  - simpl. lia.
  - simpl. lia.
Defined.

Section GeneratorTermination.

Import Generator.

Implicit Types (p : Piece) (l its : list Piece) (bin : Extent).

(** The order the pieces are kept in: ascending volume. *)
Local Abbreviation by_volume :=
  (fun p q : Piece => piece_volume p <= piece_volume q).




Variable rand : nat -> Z -> Z -> Z.

Hypothesis rand_range : forall k a b, a <= b -> a <= rand k a b <= b.



End GeneratorTermination.



(** ** The bins along the packing loop *)

Section BinsInvariant.

Implicit Types (it : Extent) (b : Bin.t) (w : World).

(** An update that returns, on a bin whose EMS set is pruned, of
    positive extents and of the shape [bin_wf], leaves such a bin. *)
Lemma update_keeps_bin_sound b b' it (Sel : EMS) :
  ems_invariant (Bin.EMSs b) /\ bin_wf b ->
  0 < axis 0 it -> 0 < axis 1 it -> 0 < axis 2 it ->
  Bin.update b it Sel = OK b' ->
  ems_invariant (Bin.EMSs b') /\ bin_wf b'.
Proof.
  intros [[Hpr Hpos] Hwf] Hx Hy Hz Hup.
  assert (Hmem : Sel ∈ Bin.EMSs b).
  { unfold Bin.update in Hup.
    destruct (Bin.list_remove Sel (Bin.EMSs b)) as [r|e] eqn:Hrem; [|discriminate].
    now apply list_remove_returns in Hrem as [Hin _]. }
  split.
  - destruct (list_remove_member Sel (Bin.EMSs b) Hmem) as (l1 & l2 & Heq & Hrem).
    unfold Bin.update in Hup. rewrite Hrem in Hup. injection Hup as <-. simpl.
    apply pruned_rec_iff in Hpr. rewrite Heq in Hpr, Hpos.
    apply pruned_rec_app in Hpr as (Hp1 & [Hhead Hp2] & Hcross).
    destruct (append_valid_invariant (Bin.new_EMSs it Sel) (l1 ++ l2)) as [Hq Hp].
    + apply pruned_rec_app. split; [exact Hp1|]. split; [exact Hp2|].
      intros A B HA HB. apply Hcross; [exact HA | now apply list_elem_of_further].
    + intros E HE. apply Hpos. apply elem_of_app in HE as [HE|HE].
      * apply elem_of_app. now left.
      * apply elem_of_app. right. now apply list_elem_of_further.
    + intros C E HC HE Hc.
      assert (HES : ~ contained E Sel).
      { apply elem_of_app in HE as [HE|HE].
        - apply (Hcross E Sel HE), list_elem_of_here.
        - now apply Hhead. }
      apply HES, (contained_trans E C Sel Hc).
      apply (new_EMSs_contained it Sel C); auto; lia.
    + now apply new_EMSs_forward.
    + split; [now apply pruned_rec_iff | exact Hp].
  - intros E HE.
    destruct (update_load b it Sel b' Hup) as [Hsize _]. rewrite Hsize.
    unfold Bin.update in Hup.
    destruct (Bin.list_remove Sel (Bin.EMSs b)) as [r|e] eqn:Hrem; [|discriminate].
    injection Hup as <-. simpl in HE.
    apply list_remove_returns in Hrem as (_ & _ & Hsub & _).
    destruct (append_valid_elements (Bin.new_EMSs it Sel) r) as (_ & Hnew & _).
    destruct (Hnew E HE) as [Hr|[Hc _]]; [now apply Hwf, Hsub|].
    destruct (Hwf Sel Hmem) as [Hmax Hmin].
    destruct Sel as [[[x1 y1] z1] [[x3 y3] z3]], it as [[ix iy] iz].
    unfold Bin.new_EMSs in Hc. simpl in *. unfold corner_le in *. simpl in *.
    repeat (apply elem_of_cons in Hc as [->|Hc]); [| | |inversion Hc];
      simpl; (split; [exact Hmax | lia]).
Qed.

Lemma fresh_bin_sound (size : Extent) :
  0 < axis 0 size -> 0 < axis 1 size -> 0 < axis 2 size ->
  ems_invariant (Bin.EMSs (Bin.init size)) /\ bin_wf (Bin.init size).
Proof.
  intros H0 H1 H2. split; [now apply fresh_bin_invariant|].
  intros E HE. apply list_elem_of_singleton in HE as ->.
  split; [reflexivity|]. unfold corner_le. simpl. lia.
Qed.

Lemma insert_keeps_all (P : Bin.t -> Prop) (bs : list Bin.t) (j : nat) b' :
  (forall b, b ∈ bs -> P b) -> P b' ->
  forall b, b ∈ <[j := b']> bs -> P b.
Proof.
  intros Hall Hb' b Hb. apply list_elem_of_lookup in Hb as [i Hi].
  apply list_lookup_insert_Some in Hi as [(_ & <- & _)|[_ Hi]]; [exact Hb'|].
  apply Hall. eapply list_elem_of_lookup_2, Hi.
Qed.

(** One turn of the packing loop on an item of positive extents keeps
    every bin sound. *)
Lemma place_keeps_bins_sound it w :
  0 < axis 0 it -> 0 < axis 1 it -> 0 < axis 2 it ->
  0 < axis 0 (bin_size (self w)) /\ 0 < axis 1 (bin_size (self w)) /\
  0 < axis 2 (bin_size (self w)) ->
  (forall b, b ∈ bins (self w) -> ems_invariant (Bin.EMSs b) /\ bin_wf b) ->
  forall b, b ∈ bins (self (snd (place (Some it) w))) ->
            ems_invariant (Bin.EMSs b) /\ bin_wf b.
Proof.
  intros Hx Hy Hz (Hs0 & Hs1 & Hs2) Hall.
  destruct (bins (self w)) as [|b0 rest] eqn:Hbins.
  - unfold place, bind, gets. simpl. rewrite Hbins. simpl. rewrite Hbins.
    intros b Hb. inversion Hb.
  - destruct (Bin.choose b0 it) as [E0|] eqn:Hc0.
    + destruct (place_first_fits it w b0 rest E0 Hbins Hc0)
        as (j & b1 & E & b' & Hb1 & _ & _ & Hup & ->). simpl.
      apply insert_keeps_all; [exact Hall|].
      apply (update_keeps_bin_sound b1 b' it E); auto.
      apply Hall. eapply list_elem_of_lookup_2, Hb1.
    + destruct (place_first_rejects it w b0 rest Hbins Hc0)
        as (j & b1 & E & b' & Hb1 & _ & _ & Hup & ->). simpl.
      assert (Hall1 : forall b, b ∈ (b0 :: rest) ++ [Bin.init (bin_size (self w))] ->
                                ems_invariant (Bin.EMSs b) /\ bin_wf b).
      { intros b Hb. apply elem_of_app in Hb as [Hb|Hb]; [now apply Hall|].
        apply list_elem_of_singleton in Hb as ->. now apply fresh_bin_sound. }
      apply (insert_keeps_all _ ((b0 :: rest) ++ [Bin.init (bin_size (self w))]));
        [exact Hall1|].
      apply (update_keeps_bin_sound b1 b' it E); auto.
      apply Hall1. eapply list_elem_of_lookup_2, Hb1.
Qed.

End BinsInvariant.

(** Along the packing loop, on items of strictly positive extents and
    a bin size of strictly positive extents, every bin of the engine
    keeps an EMS set in which no EMS is inscribed (componentwise) in
    another, every EMS has strictly positive extent, starts at a corner
    of no negative coordinate and ends at the far corner of the bin. A
    fresh engine starts in this state. *)
Theorem pack_keeps_bins_sound (its : list PyItem) (w : World) :
  0 < axis 0 (bin_size (self w)) /\ 0 < axis 1 (bin_size (self w)) /\
  0 < axis 2 (bin_size (self w)) ->
  (forall item, item ∈ its ->
     exists it, item = Some it /\
                0 < axis 0 it /\ 0 < axis 1 it /\ 0 < axis 2 it) ->
  (forall b, b ∈ bins (self w) -> ems_invariant (Bin.EMSs b) /\ bin_wf b) ->
  forall b, b ∈ bins (self (snd (for_each place its w))) ->
            ems_invariant (Bin.EMSs b) /\ bin_wf b.
Proof.
  revert w. induction its as [|item its IH]; intros w Hsize Hits Hall; simpl.
  - exact Hall.
  - unfold bind.
    destruct (Hits item (list_elem_of_here _ _)) as (it & -> & Hx & Hy & Hz).
    pose proof (place_keeps_bins_sound it w Hx Hy Hz Hsize Hall) as Hplace.
    pose proof (place_counts (Some it) w) as Hcount. cbv zeta in Hcount.
    destruct (place (Some it) w) as [[[]|e] w1]; simpl in Hplace, Hcount |- *.
    + destruct Hcount as (_ & Hs & _). apply IH.
      * now rewrite Hs.
      * intros item Hitem. apply Hits. now apply list_elem_of_further.
      * exact Hplace.
    + exact Hplace.
Qed.

Lemma pack_keeps_bins_sound_witness :
  let b := {| Bin.size := (10, 10, 10);
              Bin.EMSs := [((0, 0, 5), (10, 10, 10))];
              Bin.load := 500 |} in
  ems_invariant (Bin.EMSs b) /\ bin_wf b.
Proof.
  cbv zeta.
  apply (pack_keeps_bins_sound [Some (10, 10, 5)]
           (fresh (Problem.init (10, 10, 10) 1 1 500 [(10, 10, 5)]))).
  - simpl. lia.
  - intros item Hitem. apply list_elem_of_singleton in Hitem as ->.
    eexists. split; [reflexivity|]. simpl. lia.
  - intros b Hb. apply list_elem_of_singleton in Hb as ->.
    apply fresh_bin_sound; simpl; lia.
  - vm_compute. apply list_elem_of_here.
Defined.
